(** * A shallow embedding of the flight-rs RPG server (src/src/lib.rs,
    src/src/rpg_structs.rs).

    - [Uuid] is modelled as [nat]; Rust [String] as [string].
    - [u8] counters are [Z] with Rust's [saturating_add]/[saturating_sub]
      written out (saturation at 0 and 255).
    - [HashMap] is stdpp's [gmap]; HashMap iteration order is the order of
      [map_to_list] (any fixed order, as in Rust).
    - The [Clients] map (one channel per connected player) is a [gset] of
      player ids; what the server pushes into those channels is an explicit
      trace of [event]s.
    - The [f32] flight state (position, velocity, orientation, throttle) is
      modelled with exact rationals [Q]. Rationals have no infinity and no
      NaN: an [f32] overflow, and the NaN that can follow it, is outside the
      model, so the properties below are stated only where such values cannot
      change them. The orientation update of [FlyInput] is a parameter
      [fly_rotate] of the handler; [fly_rotate_nalgebra] is the nalgebra
      computation, with [sin], [cos] and [sqrt] as parameters. *)

From Stdlib Require Import QArith Qabs ZArith Lia Lqa.
From stdpp Require Import base gmap sets list strings pretty.

Open Scope string_scope.

(* ------------------------------------------------------------------ *)
(** ** Numeric helpers *)

(** [u8::saturating_add] / [u8::saturating_sub]. *)
Definition u8_saturating_add (a b : Z) : Z := Z.min (a + b) 255.
Definition u8_saturating_sub (a b : Z) : Z := Z.max (a - b) 0.

(** [f32::clamp] on the rationals. *)
Definition Qclamp (x lo hi : Q) : Q :=
  if Qlt_le_dec x lo then lo else if Qlt_le_dec hi x then hi else x.

(** nalgebra's [Vector3<f32>] / [Point3<f32>]. *)
Record Vec3 := mkVec3 { vx : Q; vy : Q; vz : Q }.

Definition vzero : Vec3 := mkVec3 0 0 0.
Definition vadd (a b : Vec3) : Vec3 :=
  mkVec3 (vx a + vx b) (vy a + vy b) (vz a + vz b).
Definition vscale (a : Vec3) (s : Q) : Vec3 :=
  mkVec3 (vx a * s) (vy a * s) (vz a * s).
Definition vneg (a : Vec3) : Vec3 := mkVec3 (- vx a) (- vy a) (- vz a).
Definition vcross (a b : Vec3) : Vec3 :=
  mkVec3 (vy a * vz b - vz a * vy b)
         (vz a * vx b - vx a * vz b)
         (vx a * vy b - vy a * vx b).

(** nalgebra's [UnitQuaternion<f32>]: scalar part [qw], vector part
    [(qi, qj, qk)]. *)
Record Quat := mkQuat { qw : Q; qi : Q; qj : Q; qk : Q }.

Definition quat_identity : Quat := mkQuat 1 0 0 0.
Definition quat_vec (q : Quat) : Vec3 := mkVec3 (qi q) (qj q) (qk q).

(** [UnitQuaternion * Vector3] as nalgebra computes it:
    [t = 2 (u x v); t * w + u x t + v]. *)
Definition quat_rotate (q : Quat) (v : Vec3) : Vec3 :=
  let t := vscale (vcross (quat_vec q) v) 2 in
  vadd (vadd (vscale t (qw q)) (vcross (quat_vec q) t)) v.

Definition z_axis : Vec3 := mkVec3 0 0 1.
Definition x_axis : Vec3 := mkVec3 1 0 0.
Definition y_axis : Vec3 := mkVec3 0 1 0.

(** Squared Euclidean norms. *)
Definition vnorm2 (v : Vec3) : Q := (vx v * vx v + vy v * vy v + vz v * vz v)%Q.
Definition qnorm2 (q : Quat) : Q :=
  (qw q * qw q + qi q * qi q + qj q * qj q + qk q * qk q)%Q.

(** [Quaternion * Quaternion] (Hamilton product); nalgebra's
    [UnitQuaternion * UnitQuaternion] multiplies the underlying quaternions
    and wraps the result with [Unit::new_unchecked], without normalizing. *)
Definition qmul (a b : Quat) : Quat :=
  mkQuat (qw a * qw b - qi a * qi b - qj a * qj b - qk a * qk b)
         (qw a * qi b + qi a * qw b + qj a * qk b - qk a * qj b)
         (qw a * qj b - qi a * qk b + qj a * qw b + qk a * qi b)
         (qw a * qk b + qi a * qj b - qj a * qi b + qk a * qw b).

(** The orientation step of the [FlyInput] arm as nalgebra computes it,
    with [sin], [cos] and [sqrt] as parameters. *)
Section FlyRotate.
Variables (sin cos sqrt : Q -> Q).

(** [Unit::new_normalize]: [v / v.norm()]. *)
Definition unit_new_normalize (v : Vec3) : Vec3 :=
  let n := sqrt (vnorm2 v) in
  mkVec3 (vx v / n) (vy v / n) (vz v / n).

(** [UnitQuaternion::from_axis_angle]: [(cos (a/2), axis * sin (a/2))]. *)
Definition from_axis_angle (axis : Vec3) (angle : Q) : Quat :=
  let half := (angle / 2)%Q in
  mkQuat (cos half) (vx axis * sin half) (vy axis * sin half) (vz axis * sin half).

(** Lines 359-381 of lib.rs: the axes are the current orientation applied
    to the x, z and y axes, normalized; the product is
    [yaw_quat * pitch_quat * roll_quat * orientation], evaluated left to
    right as Rust does. *)
Definition fly_rotate_nalgebra (pitch_rad roll_rad yaw_rad : Q) (o : Quat) : Quat :=
  let pitch_axis := unit_new_normalize (quat_rotate o x_axis) in
  let roll_axis := unit_new_normalize (quat_rotate o z_axis) in
  let yaw_axis := unit_new_normalize (quat_rotate o y_axis) in
  let pitch_quat := from_axis_angle pitch_axis pitch_rad in
  let roll_quat := from_axis_angle roll_axis roll_rad in
  let yaw_quat := from_axis_angle yaw_axis yaw_rad in
  qmul (qmul (qmul yaw_quat pitch_quat) roll_quat) o.

End FlyRotate.

(* ------------------------------------------------------------------ *)
(** ** rpg_structs.rs: data model *)

Definition Uuid := nat.

Inductive CatStatus := Following | Waiting | Injured | Lost.

Module Cat.
Record CatState := mkCatState {
  name : string;
  health : Z;
  status : CatStatus
}.
End Cat.

Record Character := mkCharacter {
  player_id : Uuid;
  name : string;
  occupation : string;
  loyalty : Z;
  suspicion : Z;
  thoughtcrime : Z;
  health : Z;
  inventory : list string;
  relationships : gmap string Z;
  location : string;
  journal_entries : list string;
  tasks_completed : Z;
  rebellion_score : Z;
  anarcho_knowledge : gmap string Z;
  economic_freedom_score : Z;
  voluntary_actions : Z;
  position : Vec3;
  velocity : Vec3;
  orientation : Quat;
  throttle : Q;
  cat_companion : option Cat.CatState;
  kocourka_quest_active : bool;
  kocourka_quest_failed : bool
}.

(** Field updates used by the handlers ([character.f = v] in Rust). *)
Definition set_stats (c : Character) (l s t h : Z) : Character :=
  mkCharacter (player_id c) (name c) (occupation c) l s t h
    (inventory c) (relationships c) (location c) (journal_entries c)
    (tasks_completed c) (rebellion_score c) (anarcho_knowledge c)
    (economic_freedom_score c) (voluntary_actions c) (position c)
    (velocity c) (orientation c) (throttle c) (cat_companion c)
    (kocourka_quest_active c) (kocourka_quest_failed c).

Definition set_loyalty (c : Character) (v : Z) : Character :=
  set_stats c v (suspicion c) (thoughtcrime c) (health c).
Definition set_suspicion (c : Character) (v : Z) : Character :=
  set_stats c (loyalty c) v (thoughtcrime c) (health c).
Definition set_thoughtcrime (c : Character) (v : Z) : Character :=
  set_stats c (loyalty c) (suspicion c) v (health c).
Definition set_health (c : Character) (v : Z) : Character :=
  set_stats c (loyalty c) (suspicion c) (thoughtcrime c) v.

Definition set_location (c : Character) (l : string) : Character :=
  mkCharacter (player_id c) (name c) (occupation c) (loyalty c)
    (suspicion c) (thoughtcrime c) (health c)
    (inventory c) (relationships c) l (journal_entries c)
    (tasks_completed c) (rebellion_score c) (anarcho_knowledge c)
    (economic_freedom_score c) (voluntary_actions c) (position c)
    (velocity c) (orientation c) (throttle c) (cat_companion c)
    (kocourka_quest_active c) (kocourka_quest_failed c).

Definition set_journal_entries (c : Character) (j : list string) : Character :=
  mkCharacter (player_id c) (name c) (occupation c) (loyalty c)
    (suspicion c) (thoughtcrime c) (health c)
    (inventory c) (relationships c) (location c) j
    (tasks_completed c) (rebellion_score c) (anarcho_knowledge c)
    (economic_freedom_score c) (voluntary_actions c) (position c)
    (velocity c) (orientation c) (throttle c) (cat_companion c)
    (kocourka_quest_active c) (kocourka_quest_failed c).

Definition set_flight (c : Character) (p v : Vec3) (o : Quat) (t : Q)
    : Character :=
  mkCharacter (player_id c) (name c) (occupation c) (loyalty c)
    (suspicion c) (thoughtcrime c) (health c)
    (inventory c) (relationships c) (location c) (journal_entries c)
    (tasks_completed c) (rebellion_score c) (anarcho_knowledge c)
    (economic_freedom_score c) (voluntary_actions c) p v o t
    (cat_companion c) (kocourka_quest_active c) (kocourka_quest_failed c).

Definition set_cat_and_quest (c : Character) (cat : option Cat.CatState)
    (active failed : bool) : Character :=
  mkCharacter (player_id c) (name c) (occupation c) (loyalty c)
    (suspicion c) (thoughtcrime c) (health c)
    (inventory c) (relationships c) (location c) (journal_entries c)
    (tasks_completed c) (rebellion_score c) (anarcho_knowledge c)
    (economic_freedom_score c) (voluntary_actions c) (position c)
    (velocity c) (orientation c) (throttle c) cat active failed.

Definition set_anarcho_knowledge (c : Character) (k : gmap string Z)
    : Character :=
  mkCharacter (player_id c) (name c) (occupation c) (loyalty c)
    (suspicion c) (thoughtcrime c) (health c)
    (inventory c) (relationships c) (location c) (journal_entries c)
    (tasks_completed c) (rebellion_score c) k
    (economic_freedom_score c) (voluntary_actions c) (position c)
    (velocity c) (orientation c) (throttle c) (cat_companion c)
    (kocourka_quest_active c) (kocourka_quest_failed c).

(** [Character::new] (rpg_structs.rs, lines 83-146). *)
Definition Character_new (pid : Uuid) (nm occ : string) : Character :=
  let character :=
    mkCharacter pid nm occ 50 0 0 100 [] ∅ "Victory Mansions" [] 0 0
      ∅ 0 0 (mkVec3 0 0 (17 # 10)) vzero quat_identity 0 None false false in
  let k := anarcho_knowledge character in
  let k := <["Principles of Non-Aggression" := 0%Z]> k in
  let k := <["Voluntary Exchange" := 0%Z]> k in
  let k := <["Free Market Economy" := 0%Z]> k in
  let k := <["Private Property Rights" := 0%Z]> k in
  let k := <["Decentralization" := 0%Z]> k in
  let character := set_anarcho_knowledge character k in
  let character := set_cat_and_quest character
      (Some (Cat.mkCatState "Kocourek" 100 Following))
      (kocourka_quest_active character) (kocourka_quest_failed character) in
  set_cat_and_quest character (cat_companion character) true
    (kocourka_quest_failed character).

Module Loc.
Record Location := mkLocation {
  name : string;
  description : string;
  connections : list string;
  safety : Z
}.
End Loc.

(** The part of [WorldState] the handlers read: the location graph and
    the scalar world fields. The NPC and forbidden-text tables are never
    read or written by [handle_client_message], [handle_disconnect] or
    [game_loop]. *)
Record WorldState := mkWorldState {
  locations : gmap string Loc.Location;
  current_date : string;
  two_minutes_hate_today : bool;
  chocolate_ration : Z;
  current_enemy : string
}.

Record GameState := mkGameState {
  players : gmap Uuid Character;
  world_state : WorldState;
  day : Z
}.

Definition set_players (gs : GameState) (p : gmap Uuid Character)
    : GameState :=
  mkGameState p (world_state gs) (day gs).

(** [WorldState::initialize], the location table. *)
Definition initial_locations : gmap string Loc.Location :=
  list_to_map [
    ("Victory Mansions", Loc.mkLocation "Victory Mansions"
       "Your dilapidated apartment building. The telescreen on the wall continuously broadcasts Party propaganda."
       ["Ministry of Truth"; "Victory Square"] 3);
    ("Ministry of Truth", Loc.mkLocation "Ministry of Truth"
       "A massive pyramidal structure where historical documents are rewritten to match Party narratives."
       ["Victory Mansions"; "Victory Square"; "Canteen"] 1);
    ("Canteen", Loc.mkLocation "Canteen"
       "A gray cafeteria serving tasteless Victory meals and Victory Gin."
       ["Ministry of Truth"] 2);
    ("Victory Square", Loc.mkLocation "Victory Square"
       "The central square where public executions and rallies are held."
       ["Victory Mansions"; "Ministry of Truth"; "Prole District";
        "Charrington's Shop"] 1);
    ("Prole District", Loc.mkLocation "Prole District"
       "The rundown area where the proles (working class) live with less surveillance."
       ["Victory Square"; "Charrington's Shop"] 4);
    ("Charrington's Shop", Loc.mkLocation "Charrington's Shop"
       "An antique shop run by an elderly man. It has a room upstairs without a telescreen."
       ["Victory Square"; "Prole District"] 3);
    ("Ministry of Love", Loc.mkLocation "Ministry of Love"
       "The terrifying windowless building where enemies of the Party are taken. Room 101 is inside."
       [] 0)].

Definition WorldState_initialize : WorldState :=
  mkWorldState initial_locations "April 4, 1984" true 30 "Eurasia".

(** [GameState::new]. *)
Definition GameState_new : GameState :=
  mkGameState ∅ WorldState_initialize 1.

(** [ServerMessage], the variants the modelled code sends. *)
Inductive ServerMessage :=
  | Welcome (pid : Uuid) (initial_game_state : GameState)
  | PlayerJoined (pid : Uuid) (character : Character)
  | PlayerLeft (pid : Uuid)
  | GameStateUpdate (gs : GameState)
  | NarrativeUpdate (text : string)
  | Error (text : string).

(** [ClientMessage], the variants [handle_client_message] has an arm for. *)
Inductive ClientMessage :=
  | RequestCharacterCreation (nm occ : string)
  | MoveRequest (target_location : string)
  | FlyInput (pitch roll yaw throttle_change : Q)
  | InteractRequest (npc_name : string) (interaction_type : Z)
  | JournalWriteRequest (entry : string)
  | SearchRequest
  | WorkRequest
  | RestRequest.

(** What the server pushes into a client's channel: a serialized message
    or a close frame. *)
Inductive event :=
  | Send (to : Uuid) (m : ServerMessage)
  | CloseConn (to : Uuid).

(** [Clients]: the ids that currently have a channel. *)
Record Server := mkServer {
  game_state : GameState;
  clients : gset Uuid
}.

(** [send_message_to_client]: nothing is sent to an id without a channel. *)
Definition send_message_to_client (cl : gset Uuid) (pid : Uuid)
    (m : ServerMessage) : list event :=
  if decide (pid ∈ cl) then [Send pid m] else [].

(** [broadcast_message]: every client except the excluded one. *)
Definition broadcast_message (cl : gset Uuid) (exclude : option Uuid)
    (m : ServerMessage) : list event :=
  (fun id => Send id m) <$>
    filter (fun id => exclude ≠ Some id) (elements cl).

(** [broadcast_state_update]: every client. *)
Definition broadcast_state_update (cl : gset Uuid) (gs : GameState)
    : list event :=
  (fun id => Send id (GameStateUpdate gs)) <$> elements cl.

Definition FRAME_TIME : Q := 1 # 30.

(* ------------------------------------------------------------------ *)
(** ** lib.rs: handle_client_message, handle_disconnect, game_loop *)

Section Server.

(** The orientation step of the [FlyInput] arm:
    [yaw_quat * pitch_quat * roll_quat * orientation], each quaternion
    built by [UnitQuaternion::from_axis_angle] (sine and cosine of the
    scaled input angle) about an axis rotated by the current orientation;
    [fly_rotate_nalgebra] is that computation. *)
Variable fly_rotate : Q -> Q -> Q -> Quat -> Quat.

(** The occupation [match] of the [RequestCharacterCreation] arm. *)
Definition apply_occupation (occ : string) (c : Character) : Character :=
  if String.eqb occ "Records Department Worker" then
    let c := set_loyalty c (u8_saturating_sub (loyalty c) 5) in
    set_thoughtcrime c (u8_saturating_add (thoughtcrime c) 10)
  else if String.eqb occ "Junior Spy Instructor" then
    let c := set_loyalty c (u8_saturating_add (loyalty c) 15) in
    set_suspicion c (u8_saturating_sub (suspicion c) 10)
  else if String.eqb occ "Fiction Department Writer" then
    set_thoughtcrime c (u8_saturating_add (thoughtcrime c) 15)
  else c.

(** The [FlyInput] arm on one character. *)
Definition fly_character (c : Character) (pitch roll yaw tc : Q)
    : Character :=
  let thr := Qclamp (throttle c + tc * FRAME_TIME * 2)%Q 0 1 in
  let rotation_speed := ((3 # 2) * FRAME_TIME)%Q in
  let o := fly_rotate (pitch * rotation_speed)%Q (roll * rotation_speed)%Q
             (yaw * rotation_speed)%Q (orientation c) in
  set_flight c (position c) (velocity c) o thr.

(** [handle_client_message]: the new game state and the events sent. *)
Definition handle_client_message (pid : Uuid) (msg : ClientMessage)
    (gs : GameState) (cl : gset Uuid) : GameState * list event :=
  match msg with
  | RequestCharacterCreation nm occ =>
      match players gs !! pid with
      | None =>
          let new_char := apply_occupation occ (Character_new pid nm occ) in
          let gs' := set_players gs (<[pid := new_char]> (players gs)) in
          (gs', app (broadcast_message cl (Some pid) (PlayerJoined pid new_char))
                  (send_message_to_client cl pid (GameStateUpdate gs')))
      | Some _ =>
          (gs, send_message_to_client cl pid
                 (Error "Character already created."))
      end
  | MoveRequest target =>
      match players gs !! pid with
      | Some c =>
          match locations (world_state gs) !! location c with
          | Some cur =>
              if decide (target ∈ Loc.connections cur) then
                match locations (world_state gs) !! target with
                | Some _ =>
                    let gs' := set_players gs
                                 (<[pid := set_location c target]> (players gs)) in
                    (gs', broadcast_state_update cl gs')
                | None =>
                    (gs, send_message_to_client cl pid
                           (Error ("Invalid move target: " +:+ target)))
                end
              else
                (gs, send_message_to_client cl pid
                       (Error ("Cannot move from " +:+ location c +:+ " to "
                               +:+ target)))
          | None =>
              (gs, send_message_to_client cl pid
                     (Error "Internal server error: Current location invalid."))
          end
      | None => (gs, [])
      end
  | FlyInput pitch roll yaw tc =>
      match players gs !! pid with
      | Some c =>
          (set_players gs (<[pid := fly_character c pitch roll yaw tc]>
                             (players gs)), [])
      | None => (gs, [])
      end
  | InteractRequest npc itype =>
      (gs, send_message_to_client cl pid
             (NarrativeUpdate ("You interact with " +:+ npc
                +:+ ". (Interaction type " +:+ pretty itype
                +:+ " - logic not implemented yet)")))
  | JournalWriteRequest entry =>
      match players gs !! pid with
      | Some c =>
          let c := set_journal_entries c (app (journal_entries c) [entry]) in
          let c := set_thoughtcrime c (u8_saturating_add (thoughtcrime c) 5) in
          let gs' := set_players gs (<[pid := c]> (players gs)) in
          (gs', app (send_message_to_client cl pid
                  (NarrativeUpdate
                     "You write in your secret journal. Your thoughtcrime increases."))
                (broadcast_state_update cl gs'))
      | None => (gs, [])
      end
  | SearchRequest =>
      (gs, send_message_to_client cl pid
             (NarrativeUpdate
                "You search the area, but find nothing of interest (logic not implemented yet)."))
  | WorkRequest =>
      (gs, send_message_to_client cl pid
             (NarrativeUpdate
                "You perform your duties for the Party (logic not implemented yet)."))
  | RestRequest =>
      match players gs !! pid with
      | Some c =>
          let c := set_health c (Z.min (u8_saturating_add (health c) 5) 100) in
          let gs' := set_players gs (<[pid := c]> (players gs)) in
          (gs', app (send_message_to_client cl pid
                  (NarrativeUpdate "You rest for a while, recovering slightly."))
                (broadcast_state_update cl gs'))
      | None => (gs, [])
      end
  end.

(** [handle_disconnect]: the channel goes first, then the character. *)
Definition handle_disconnect (pid : Uuid) (srv : Server) : Server * list event :=
  let cl := clients srv ∖ {[pid]} in
  let gs := game_state srv in
  match players gs !! pid with
  | Some _ =>
      (mkServer (set_players gs (delete pid (players gs))) cl,
       broadcast_message cl (Some pid) (PlayerLeft pid))
  | None => (mkServer gs cl, [])
  end.

End Server.

(** *** [game_loop], one tick *)

Definition death_text : string :=
  "Your health reached zero. You succumb to the harsh realities of Oceania.".
Definition arrest_text : string :=
  "Your suspicion level reached its peak. You are arrested by the Thought Police and taken to the Ministry of Love. Your journey ends here.".

(** "Check for Player End Conditions": the ids pushed to
    [players_to_remove], in iteration order, and the narratives sent. *)
Fixpoint end_condition_scan (cl : gset Uuid) (l : list (Uuid * Character))
    : list Uuid * list event :=
  match l with
  | [] => ([], [])
  | (id, c) :: l' =>
      let '(ids, evs) := end_condition_scan cl l' in
      if Z.eqb (health c) 0 then
        (id :: ids, app (send_message_to_client cl id (NarrativeUpdate death_text)) evs)
      else if Z.leb 100 (suspicion c) then
        (id :: ids, app (send_message_to_client cl id (NarrativeUpdate arrest_text)) evs)
      else (ids, evs)
  end.

(** "Remove players who met end conditions": the new player map,
    [state_changed], and the events sent. *)
Fixpoint remove_players (cl : gset Uuid) (ids : list Uuid)
    (p : gmap Uuid Character) : gmap Uuid Character * bool * list event :=
  match ids with
  | [] => (p, false, [])
  | id :: ids' =>
      match p !! id with
      | Some _ =>
          let ev := app (broadcast_message cl (Some id) (PlayerLeft id))
                      (if decide (id ∈ cl) then [CloseConn id] else []) in
          let '(p', _, evs) := remove_players cl ids' (delete id p) in
          (p', true, app ev evs)
      | None => remove_players cl ids' p
      end
  end.

Definition gravity : Vec3 := mkVec3 0 (-981 # 100) 0.
Definition drag_coefficient : Q := 1 # 2.

(** "3D Physics Update" for one character. *)
Definition physics_update (c : Character) : Character :=
  let forward_vector := quat_rotate (orientation c) z_axis in
  let thrust_force := vscale (vscale forward_vector (throttle c)) 20 in
  let drag_force := vscale (vneg (velocity c)) drag_coefficient in
  let net_force := vadd (vadd thrust_force gravity) drag_force in
  let acceleration := net_force in
  let v := vadd (velocity c) (vscale acceleration FRAME_TIME) in
  let p := vadd (position c) (vscale v FRAME_TIME) in
  if Qlt_le_dec (vy p) 0 then
    let p := mkVec3 (vx p) 0 (vz p) in
    let v := mkVec3 (vx v) (if Qlt_le_dec (vy v) 0 then 0 else vy v) (vz v) in
    let v := mkVec3 (vx v * (9 # 10)) (vy v) (vz v * (9 # 10)) in
    set_flight c p v (orientation c) (throttle c)
  else set_flight c p v (orientation c) (throttle c).

(** One iteration of the [game_loop] body. *)
Definition game_tick (srv : Server) : Server * list event :=
  let gs := game_state srv in
  let cl := clients srv in
  let '(ids, ev1) := end_condition_scan cl (map_to_list (players gs)) in
  let '(p1, changed1, ev2) := remove_players cl ids (players gs) in
  let p2 := physics_update <$> p1 in
  let changed := orb changed1 (negb (bool_decide (p1 = ∅))) in
  let gs' := set_players gs p2 in
  (mkServer gs' cl,
   app ev1 (app ev2 (if changed then broadcast_state_update cl gs' else []))).

(** *** The server as a transition system *)

Inductive input :=
  | Connect (pid : Uuid)                  (* handle_connection, new Uuid *)
  | ClientMsg (pid : Uuid) (m : ClientMessage)
  | Tick
  | Disconnect (pid : Uuid).

Definition server_new : Server := mkServer GameState_new ∅.

Section Steps.
Variable fly_rotate : Q -> Q -> Q -> Quat -> Quat.

Definition server_step (srv : Server) (i : input) : Server * list event :=
  match i with
  | Connect pid =>
      (mkServer (game_state srv) ({[pid]} ∪ clients srv),
       [Send pid (Welcome pid (game_state srv))])
  | ClientMsg pid m =>
      let '(gs', evs) :=
        handle_client_message fly_rotate pid m (game_state srv) (clients srv) in
      (mkServer gs' (clients srv), evs)
  | Tick => game_tick srv
  | Disconnect pid => handle_disconnect pid srv
  end.

(** A connection gets a fresh id; messages come from a connected id. *)
Definition input_ok (srv : Server) (i : input) : bool :=
  match i with
  | Connect pid => bool_decide (pid ∉ clients srv)
  | ClientMsg pid _ => bool_decide (pid ∈ clients srv)
  | Tick | Disconnect _ => true
  end.

Inductive reachable : Server -> Prop :=
  | reach_init : reachable server_new
  | reach_step srv i :
      reachable srv -> input_ok srv i = true ->
      reachable (fst (server_step srv i)).

(** Run a list of inputs, skipping those that cannot occur. *)
Fixpoint run (srv : Server) (is : list input) : Server * list event :=
  match is with
  | [] => (srv, [])
  | i :: is' =>
      if input_ok srv i then
        let '(srv1, ev1) := server_step srv i in
        let '(srv2, ev2) := run srv1 is' in
        (srv2, app ev1 ev2)
      else run srv is'
  end.

End Steps.

(* ------------------------------------------------------------------ *)
(** ** physics.rs: the standalone 2D aircraft *)

(** The [f32] fields are rationals, as for the server's flight state.
    [sqrt], [atan2], [sin] and [cos] are section variables: the update
    reads them but the properties proved below hold whatever they return. *)
Module Physics.
Local Open Scope Q_scope.

Definition M : Q := 1000.
Definition G : Q := 98 # 10.
Definition T_MAX : Q := 10000.
Definition K_D : Q := 1 # 10.
Definition K_L : Q := 10.
Definition PITCH_RATE_MAX : Q := 1745 # 10000.
Definition THROTTLE_CHANGE_RATE : Q := 1 # 2.
(** [std::f32::consts::FRAC_PI_2], the [f32] value. *)
Definition FRAC_PI_2 : Q := 13176795 # 8388608.

Record InputState := mkInputState {
  pitch_up : bool;
  pitch_down : bool;
  throttle_up : bool;
  throttle_down : bool
}.

Definition InputState_default : InputState :=
  mkInputState false false false false.

Record Aircraft := mkAircraft {
  x : Q;
  y : Q;
  vx : Q;
  vy : Q;
  theta : Q;
  throttle_level : Q;
  input : InputState
}.

(** [Aircraft::new]. *)
Definition Aircraft_new : Aircraft :=
  mkAircraft 0 100 50 0 0 0 InputState_default.

Section Update.
Variable sqrt : Q -> Q.
Variable atan2 : Q -> Q -> Q.
Variables sin cos : Q -> Q.

(** [Aircraft::update]. *)
Definition update (dt : Q) (a : Aircraft) : Aircraft :=
  let pitch_rate :=
    if pitch_up (input a) then PITCH_RATE_MAX
    else if pitch_down (input a) then - PITCH_RATE_MAX else 0 in
  let throttle_change :=
    if throttle_up (input a) then THROTTLE_CHANGE_RATE
    else if throttle_down (input a) then - THROTTLE_CHANGE_RATE else 0 in
  let throttle_level := throttle_level a + throttle_change * dt in
  let throttle_level := Qclamp throttle_level 0 1 in
  let theta := theta a + pitch_rate * dt in
  let theta := Qclamp theta (- FRAC_PI_2) FRAC_PI_2 in
  let s := sqrt (vx a * vx a + vy a * vy a) in
  let phi := atan2 (vy a) (vx a) in
  let alpha := theta - phi in
  let lift := K_L * (s * s) * alpha in
  let drag := K_D * (s * s) in
  let thrust := T_MAX * throttle_level in
  let '(f_x, f_y) :=
    if Qlt_le_dec (1 # 1000) s then
      let drag_x := drag * vx a / s in
      let drag_y := drag * vy a / s in
      let lift_dir_x := - vy a / s in
      let lift_dir_y := vx a / s in
      (thrust * cos theta - drag_x - lift * lift_dir_x,
       thrust * sin theta - drag_y + lift * lift_dir_y - M * G)
    else
      (thrust * cos theta, thrust * sin theta - M * G) in
  let vx' := vx a + (f_x / M) * dt in
  let vy' := vy a + (f_y / M) * dt in
  let x' := x a + vx' * dt in
  let y' := y a + vy' * dt in
  if Qlt_le_dec y' 0 then mkAircraft x' 0 0 0 0 throttle_level (input a)
  else mkAircraft x' y' vx' vy' theta throttle_level (input a).

End Update.
End Physics.

(* ------------------------------------------------------------------ *)
(** ** main.rs: the windowed simulator *)

Module MainSim.
Local Open Scope Q_scope.

Definition WIDTH : nat := 800.
Definition HEIGHT : nat := 600.

Record Aircraft := mkAircraft {
  x : Q;
  y : Q;
  vx : Q;
  vy : Q;
  theta : Q;
  throttle_level : Q
}.

Definition Aircraft_new : Aircraft := mkAircraft 0 100 50 0 0 0.

Definition set_throttle_level (a : Aircraft) (t : Q) : Aircraft :=
  mkAircraft (x a) (y a) (vx a) (vy a) (theta a) t.

Section Update.
Variable sqrt : Q -> Q.
Variable atan2 : Q -> Q -> Q.
Variables sin cos : Q -> Q.

(** [Aircraft::update] of main.rs: the pitch rate is an argument and the
    throttle is set by the caller. Same constants as physics.rs. *)
Definition update (dt pitch_rate : Q) (a : Aircraft) : Aircraft :=
  let theta := theta a + pitch_rate * dt in
  let theta := Qclamp theta (- Physics.FRAC_PI_2) Physics.FRAC_PI_2 in
  let s := sqrt (vx a * vx a + vy a * vy a) in
  let phi := atan2 (vy a) (vx a) in
  let alpha := theta - phi in
  let lift := Physics.K_L * (s * s) * alpha in
  let drag := Physics.K_D * (s * s) in
  let thrust := Physics.T_MAX * throttle_level a in
  let '(f_x, f_y) :=
    if Qlt_le_dec (1 # 1000) s then
      let drag_x := drag * vx a / s in
      let drag_y := drag * vy a / s in
      let lift_dir_x := - vy a / s in
      let lift_dir_y := vx a / s in
      (thrust * cos theta - drag_x - lift * lift_dir_x,
       thrust * sin theta - drag_y + lift * lift_dir_y
         - Physics.M * Physics.G)
    else
      (thrust * cos theta, thrust * sin theta - Physics.M * Physics.G) in
  let vx' := vx a + (f_x / Physics.M) * dt in
  let vy' := vy a + (f_y / Physics.M) * dt in
  let x' := x a + vx' * dt in
  let y' := y a + vy' * dt in
  if Qlt_le_dec y' 0 then mkAircraft x' 0 0 0 0 (throttle_level a)
  else mkAircraft x' y' vx' vy' theta (throttle_level a).

(** The simulation part of one iteration of [main]'s loop: [dt] is the
    elapsed time capped at 0.1 s, the keys Up/Down pick the pitch rate,
    W/S the throttle change. Rendering is not modelled. *)
Definition frame (elapsed : Q) (up down w s : bool) (a : Aircraft)
    : Aircraft :=
  let dt := if Qlt_le_dec elapsed (1 # 10) then elapsed else 1 # 10 in
  let pitch_rate :=
    if up then Physics.PITCH_RATE_MAX
    else if down then - Physics.PITCH_RATE_MAX else 0 in
  let throttle_change :=
    if w then Physics.THROTTLE_CHANGE_RATE
    else if s then - Physics.THROTTLE_CHANGE_RATE else 0 in
  let a := set_throttle_level a (throttle_level a + throttle_change * dt) in
  let a := set_throttle_level a (Qclamp (throttle_level a) 0 1) in
  update dt pitch_rate a.

End Update.

Local Open Scope Z_scope.

(** [draw_line]: Bresenham's loop on [i32] values as [Z] (screen
    coordinates are far from the [i32] range). The buffer is a list of
    colours; [buffer[i] = color] panics past the end. [draw_line_loop]
    runs at most [fuel] iterations: [None] if it panics or has not reached
    the end point by then. *)
Definition in_screen (width height : nat) (x y : Z) : bool :=
  (0 <=? x) && (x <? Z.of_nat width) && (0 <=? y) && (y <? Z.of_nat height).

(** The index [y as usize * width + x as usize]. *)
Definition pixel_index (width : nat) (x y : Z) : nat :=
  (Z.to_nat y * width + Z.to_nat x)%nat.

(** The guarded write at the top of the loop body. *)
Definition put_pixel (buffer : list Z) (width height : nat) (x y color : Z)
    : option (list Z) :=
  if in_screen width height x y then
    let i := pixel_index width x y in
    if Nat.ltb i (length buffer) then Some (<[i := color]> buffer) else None
  else Some buffer.

Fixpoint draw_line_loop (fuel : nat) (buffer : list Z) (width height : nat)
    (x1 y1 dx dy sx sy err x y color : Z) : option (list Z) :=
  match fuel with
  | O => None
  | S fuel' =>
      match put_pixel buffer width height x y color with
      | None => None
      | Some buffer =>
          if (x =? x1) && (y =? y1) then Some buffer
          else
            let e2 := 2 * err in
            let '(err, x) := if -dy <? e2 then (err - dy, x + sx) else (err, x) in
            let '(err, y) := if e2 <? dx then (err + dx, y + sy) else (err, y) in
            draw_line_loop fuel' buffer width height x1 y1 dx dy sx sy err x y
              color
      end
  end.

Definition draw_line (fuel : nat) (buffer : list Z) (width height : nat)
    (x0 y0 x1 y1 color : Z) : option (list Z) :=
  let dx := Z.abs (x1 - x0) in
  let dy := Z.abs (y1 - y0) in
  let sx := if x0 <? x1 then 1 else -1 in
  let sy := if y0 <? y1 then 1 else -1 in
  let err := dx - dy in
  draw_line_loop fuel buffer width height x1 y1 dx dy sx sy err x0 y0 color.

End MainSim.

(* ------------------------------------------------------------------ *)
(** ** Spec-side definitions, concrete states and trace predicates *)

(** A concrete orientation step, for evaluating the model on inputs. *)
Definition fly_rotate_keep : Q -> Q -> Q -> Quat -> Quat := fun _ _ _ q => q.

(** The five topics [Character::new] inserts. *)
Definition anarcho_topics : list string :=
  ["Principles of Non-Aggression"; "Voluntary Exchange"; "Free Market Economy";
   "Private Property Rights"; "Decentralization"].

(** The creation stats of the spec's occupation table, per occupation:
    (loyalty, suspicion, thoughtcrime). *)
Definition occupation_stats (occ : string) : Z * Z * Z :=
  if String.eqb occ "Records Department Worker" then (45, 0, 10)%Z
  else if String.eqb occ "Junior Spy Instructor" then (65, 0, 0)%Z
  else if String.eqb occ "Fiction Department Writer" then (50, 0, 15)%Z
  else (50, 0, 0)%Z.

(** Commands that act on the sender's character. *)
Definition character_command (m : ClientMessage) : Prop :=
  match m with
  | MoveRequest _ | FlyInput _ _ _ _ | JournalWriteRequest _ | RestRequest => True
  | _ => False
  end.

(** A reachable state: client 1 connected and created a character. *)
Definition srv_one_player : Server :=
  fst (run fly_rotate_keep server_new
         [Connect 1; ClientMsg 1 (RequestCharacterCreation "Winston"
                                    "Records Department Worker")]).

(** Client 1 connects, creates a "Records Department Worker" (thoughtcrime
    10), then writes 19 journal entries. *)
Definition journal_inputs : list input :=
  [Connect 1; ClientMsg 1 (RequestCharacterCreation "Winston"
                             "Records Department Worker")] ++
  repeat (ClientMsg 1 (JournalWriteRequest "DOWN WITH BIG BROTHER")) 19.

(** The end condition tested by the scan: [health == 0 || suspicion >= 100]. *)
Definition ends (c : Character) : bool :=
  orb (Z.eqb (health c) 0) (Z.leb 100 (suspicion c)).

(** The physics step as the spec words it, with its constants as
    parameters: gravity [g] downwards, linear drag [k], thrust scale [s],
    tick [dt], ground friction [f]. Net force (unit mass) is gravity plus
    drag plus thrust along the rotated forward axis. *)
Definition spec_net_force (g k s : Q) (c : Character) : Vec3 :=
  vadd (vadd (mkVec3 0 (- g) 0) (vscale (velocity c) (- k)))
       (vscale (quat_rotate (orientation c) z_axis) (s * throttle c)).

(** Semi-implicit Euler: velocity first, then position from the new
    velocity. *)
Definition spec_velocity (g k s dt : Q) (c : Character) : Vec3 :=
  vadd (velocity c) (vscale (spec_net_force g k s c) dt).

Definition spec_position (g k s dt : Q) (c : Character) : Vec3 :=
  vadd (position c) (vscale (spec_velocity g k s dt c) dt).

(** Ground constraint at height 0: clamp, zero a downward vertical
    velocity, multiply both horizontal velocity components by [f]. *)
Definition flight_step_spec (g k s dt f : Q) (c : Character) : Vec3 * Vec3 :=
  let v1 := spec_velocity g k s dt c in
  let p1 := spec_position g k s dt c in
  if Qlt_le_dec (vy p1) 0 then
    (mkVec3 (vx p1) 0 (vz p1),
     mkVec3 (f * vx v1) (if Qlt_le_dec (vy v1) 0 then 0 else vy v1) (f * vz v1))
  else (p1, v1).

(** Componentwise equality of rationals. *)
Definition vec_eq (a b : Vec3) : Prop :=
  (vx a == vx b /\ vy a == vy b /\ vz a == vz b)%Q.

(** Counting events in a trace. *)
Fixpoint count_by (f : event -> bool) (l : list event) : nat :=
  match l with
  | [] => 0
  | e :: l' => (if f e then 1 else 0) + count_by f l'
  end.

Definition is_narrative_to (id : Uuid) (txt : string) (e : event) : bool :=
  match e with
  | Send k (NarrativeUpdate t) => andb (Nat.eqb k id) (String.eqb t txt)
  | _ => false
  end.

Definition is_left_to (k id : Uuid) (e : event) : bool :=
  match e with
  | Send k' (PlayerLeft id') => andb (Nat.eqb k' k) (Nat.eqb id' id)
  | _ => false
  end.

Definition is_close_to (id : Uuid) (e : event) : bool :=
  match e with
  | CloseConn k => Nat.eqb k id
  | _ => false
  end.

(** The narrative the scan sends for an ended character. *)
Definition cause_text (c : Character) : string :=
  if Z.eqb (health c) 0 then death_text else arrest_text.

(** The removal events, one block per removed id. *)
Definition removal_block (cl : gset Uuid) (j : Uuid) : list event :=
  app (broadcast_message cl (Some j) (PlayerLeft j))
      (if decide (j ∈ cl) then [CloseConn j] else []).

(** A state with a dead character (id 1) and a second client (id 2). *)
Definition srv_dead_player : Server :=
  mkServer (set_players GameState_new
              {[1 := set_health (Character_new 1 "Winston" "Records Department Worker") 0]})
           {[1; 2]}.

(** The location invariant: locations are the initial table, and every
    character stands on one of its keys. *)
Definition locations_ok (srv : Server) : Prop :=
  locations (world_state (game_state srv)) = initial_locations /\
  map_Forall (fun _ c => is_Some (initial_locations !! location c))
    (players (game_state srv)).

(** Events addressed to [k]; state updates addressed to [k]. *)
Definition is_to (k : Uuid) (e : event) : bool :=
  match e with
  | Send k' _ => Nat.eqb k' k
  | CloseConn _ => false
  end.


(** The commands whose arm only answers with a narrative. *)
Definition narrative_only_command (m : ClientMessage) : Prop :=
  match m with
  | InteractRequest _ _ | SearchRequest | WorkRequest => True
  | _ => False
  end.

(** The invariant of reachable states, per character and for the server. *)
Definition char_ok (id : Uuid) (c : Character) : Prop :=
  player_id c = id /\ health c = 100%Z /\ suspicion c = 0%Z /\
  (0 <= loyalty c <= 100)%Z /\ rebellion_score c = 0%Z /\
  (0 <= thoughtcrime c <= 255)%Z /\ (0 <= throttle c <= 1)%Q /\
  location c <> "Ministry of Love".

Definition server_ok (srv : Server) : Prop :=
  (forall id, is_Some (players (game_state srv) !! id) -> id ∈ clients srv) /\
  map_Forall char_ok (players (game_state srv)).

(** Location [b] lists [a] among its connections. *)
Definition links_back (a b : string) : bool :=
  match initial_locations !! b with
  | Some lb => bool_decide (a ∈ Loc.connections lb)
  | None => false
  end.

(** The character client 1 creates in [srv_one_player]. *)
Definition winston_rdw : Character :=
  apply_occupation "Records Department Worker"
    (Character_new 1 "Winston" "Records Department Worker").

(* ------------------------------------------------------------------ *)
(** ** Helper lemmas *)

Lemma anarcho_knowledge_new pid nm occ :
  anarcho_knowledge (Character_new pid nm occ) =
  list_to_map ((fun t => (t, 0%Z)) <$> anarcho_topics).
Proof. reflexivity. Qed.

Lemma apply_occupation_fields occ c :
  location (apply_occupation occ c) = location c /\
  health (apply_occupation occ c) = health c /\
  rebellion_score (apply_occupation occ c) = rebellion_score c /\
  velocity (apply_occupation occ c) = velocity c /\
  orientation (apply_occupation occ c) = orientation c.
Proof.
  unfold apply_occupation.
  repeat match goal with |- context [String.eqb ?a ?b] => destruct (String.eqb a b) end;
  repeat split.
Qed.

(* ------------------------------------------------------------------ *)
(** ** Character::new *)

(** C10: [Character::new] gives every character the cat "Kocourek"
    (health 100, Following), starts the Kocourka quest (active, not failed),
    and a knowledge map with exactly five topics, all at level 0. *)
Theorem Character_new_cat_quest_knowledge (pid : Uuid) (nm occ : string) :
  cat_companion (Character_new pid nm occ) =
    Some (Cat.mkCatState "Kocourek" 100 Following) /\
  kocourka_quest_active (Character_new pid nm occ) = true /\
  kocourka_quest_failed (Character_new pid nm occ) = false /\
  length anarcho_topics = 5 /\ NoDup anarcho_topics /\
  (forall k v, anarcho_knowledge (Character_new pid nm occ) !! k = Some v <->
               k ∈ anarcho_topics /\ v = 0%Z).
Proof.
  split; [reflexivity|]. split; [reflexivity|]. split; [reflexivity|].
  split; [reflexivity|]. split; [unfold anarcho_topics; repeat constructor; set_solver|].
  intros k v. rewrite anarcho_knowledge_new, <- elem_of_list_to_map.
  - rewrite list_elem_of_fmap. split.
    + intros (t & Heq & Ht). injection Heq as -> ->. auto.
    + intros [Hk ->]. exists k. auto.
  - cbv. repeat constructor; set_solver.
Qed.

(** C3 (counterexample): [Character::new] itself does not apply the
    occupation table: a "Records Department Worker" still has loyalty 50
    and thoughtcrime 0, not 45 and 10. *)
Lemma Character_new_no_occupation_adjustment :
  loyalty (Character_new 0 "Winston" "Records Department Worker") = 50%Z /\
  thoughtcrime (Character_new 0 "Winston" "Records Department Worker") = 0%Z /\
  loyalty (Character_new 0 "Winston" "Records Department Worker") <> 45%Z.
Proof. split; [reflexivity|]. split; [reflexivity|]. discriminate. Qed.

(** C3 (amended): [Character::new] returns loyalty 50, suspicion,
    thoughtcrime and rebellion_score 0, health 100, location
    "Victory Mansions", zero velocity and identity orientation whatever
    the occupation; the creation handler applies the occupation table to
    that character before inserting it, giving the table's stats. *)
Theorem Character_new_defaults_and_creation_table
    (fr : Q -> Q -> Q -> Quat -> Quat) (pid : Uuid) (nm occ : string)
    (gs : GameState) (cl : gset Uuid) (Hnone : players gs !! pid = None) :
  let c := Character_new pid nm occ in
  loyalty c = 50%Z /\ suspicion c = 0%Z /\ thoughtcrime c = 0%Z /\
  rebellion_score c = 0%Z /\ health c = 100%Z /\
  location c = "Victory Mansions" /\ velocity c = vzero /\
  orientation c = quat_identity /\
  exists c', players (fst (handle_client_message fr pid
                 (RequestCharacterCreation nm occ) gs cl)) !! pid = Some c' /\
    c' = apply_occupation occ c /\
    (loyalty c', suspicion c', thoughtcrime c') = occupation_stats occ /\
    health c' = 100%Z /\ rebellion_score c' = 0%Z /\
    location c' = "Victory Mansions" /\ velocity c' = vzero /\
    orientation c' = quat_identity.
Proof.
  intros c. do 8 (split; [reflexivity|]).
  exists (apply_occupation occ c). simpl. rewrite Hnone. simpl.
  rewrite lookup_insert_eq. split; [reflexivity|]. split; [reflexivity|].
  destruct (apply_occupation_fields occ c) as (Hl & Hh & Hr & Hv & Ho).
  rewrite Hl, Hh, Hr, Hv, Ho. repeat split; try reflexivity.
  unfold occupation_stats, apply_occupation.
  repeat match goal with |- context [String.eqb ?a ?b] => destruct (String.eqb a b) end;
  reflexivity.
Qed.

Lemma Character_new_defaults_and_creation_table_witness :
  players GameState_new !! 0 = None /\
  (let c := Character_new 0 "Winston" "Junior Spy Instructor" in
  loyalty c = 50%Z /\ suspicion c = 0%Z /\ thoughtcrime c = 0%Z /\
  rebellion_score c = 0%Z /\ health c = 100%Z /\
  location c = "Victory Mansions" /\ velocity c = vzero /\
  orientation c = quat_identity /\
  exists c', players (fst (handle_client_message fly_rotate_keep 0
       (RequestCharacterCreation "Winston" "Junior Spy Instructor")
       GameState_new {[0]})) !! 0 = Some c' /\
    c' = apply_occupation "Junior Spy Instructor" c /\
    (loyalty c', suspicion c', thoughtcrime c') =
      occupation_stats "Junior Spy Instructor" /\
    health c' = 100%Z /\ rebellion_score c' = 0%Z /\
    location c' = "Victory Mansions" /\ velocity c' = vzero /\
    orientation c' = quat_identity).
Proof.
  split; [reflexivity|].
  apply (Character_new_defaults_and_creation_table fly_rotate_keep 0
           "Winston" "Junior Spy Instructor" GameState_new {[0]}).
  reflexivity.
Defined.

(* ------------------------------------------------------------------ *)
(** ** Character creation *)

Lemma elem_of_broadcast_message cl ex m e :
  e ∈ broadcast_message cl ex m <->
  exists j, e = Send j m /\ j ∈ cl /\ ex <> Some j.
Proof.
  unfold broadcast_message. rewrite list_elem_of_fmap. split.
  - intros (j & -> & Hj). apply list_elem_of_filter in Hj as [Hex Hj].
    apply elem_of_elements in Hj. eauto.
  - intros (j & -> & Hj & Hex). exists j. split; [done|].
    apply list_elem_of_filter. split; [done|]. by apply elem_of_elements.
Qed.

(** C5: from a fresh world, the first creation request of "Winston", a
    "Records Department Worker", inserts a character with loyalty 45,
    thoughtcrime 10 at "Victory Mansions", and the join message goes to
    every connected client except the sender, and to no one else. *)
Theorem creation_winston_fresh_world (fr : Q -> Q -> Q -> Quat -> Quat)
    (cl : gset Uuid) (pid : Uuid) :
  let '(gs', evs) := handle_client_message fr pid
      (RequestCharacterCreation "Winston" "Records Department Worker")
      GameState_new cl in
  exists c, players gs' !! pid = Some c /\
    loyalty c = 45%Z /\ thoughtcrime c = 10%Z /\
    location c = "Victory Mansions" /\
    (forall j, j ∈ cl -> j <> pid -> Send j (PlayerJoined pid c) ∈ evs) /\
    (forall j c', Send j (PlayerJoined pid c') ∈ evs -> j ∈ cl /\ j <> pid).
Proof.
  simpl. rewrite lookup_empty.
  eexists. split; [apply lookup_insert_eq|].
  split; [reflexivity|]. split; [reflexivity|]. split; [reflexivity|].
  split.
  - intros j Hj Hne. apply elem_of_app. left.
    apply elem_of_broadcast_message. exists j. split; [done|].
    split; [done|]. congruence.
  - intros j c' Hin. apply elem_of_app in Hin as [Hin|Hin].
    + apply elem_of_broadcast_message in Hin as (k & Heq & Hk & Hex).
      injection Heq as -> _. split; [done|]. congruence.
    + unfold send_message_to_client in Hin.
      case_decide; [apply list_elem_of_singleton in Hin|]; set_solver.
Qed.

(** C6: a creation request from an identity that already has a character
    changes nothing and answers the sender alone with an error. *)
Theorem creation_twice_rejected (fr : Q -> Q -> Q -> Quat -> Quat)
    (gs : GameState) (cl : gset Uuid) (pid : Uuid) (c : Character)
    (nm occ : string) (Hc : players gs !! pid = Some c) :
  handle_client_message fr pid (RequestCharacterCreation nm occ) gs cl =
    (gs, send_message_to_client cl pid (Error "Character already created.")) /\
  players (fst (handle_client_message fr pid
                 (RequestCharacterCreation nm occ) gs cl)) !! pid = Some c /\
  (pid ∈ cl -> snd (handle_client_message fr pid
                 (RequestCharacterCreation nm occ) gs cl) =
               [Send pid (Error "Character already created.")]).
Proof.
  simpl. rewrite Hc. split; [done|]. split; [done|].
  intros Hin. simpl. unfold send_message_to_client. by case_decide.
Qed.

Lemma creation_twice_rejected_witness :
  players (fst (handle_client_message fly_rotate_keep 1
     (RequestCharacterCreation "Winston" "Fiction Department Writer")
     GameState_new {[1]})) !! 1 =
    Some (apply_occupation "Fiction Department Writer"
            (Character_new 1 "Winston" "Fiction Department Writer")) /\
  handle_client_message fly_rotate_keep 1
    (RequestCharacterCreation "Julia" "Junior Spy Instructor")
    (fst (handle_client_message fly_rotate_keep 1
       (RequestCharacterCreation "Winston" "Fiction Department Writer")
       GameState_new {[1]})) {[1]} =
    (fst (handle_client_message fly_rotate_keep 1
       (RequestCharacterCreation "Winston" "Fiction Department Writer")
       GameState_new {[1]}),
     send_message_to_client {[1]} 1 (Error "Character already created.")).
Proof.
  split; [reflexivity|].
  apply (creation_twice_rejected fly_rotate_keep _ {[1]} 1
           (apply_occupation "Fiction Department Writer"
              (Character_new 1 "Winston" "Fiction Department Writer"))
           "Julia" "Junior Spy Instructor").
  reflexivity.
Defined.

(* ------------------------------------------------------------------ *)
(** ** Commands from an identity without a character *)

(** C4 (counterexample): a connected client without a character sends a
    [MoveRequest]; the server sends it nothing at all, so in particular no
    error naming the violated precondition. *)
Lemma move_without_character_no_error :
  handle_client_message fly_rotate_keep 1 (MoveRequest "Canteen")
    GameState_new {[1]} = (GameState_new, []) /\
  ~ exists txt, Send 1 (Error txt) ∈
      snd (handle_client_message fly_rotate_keep 1 (MoveRequest "Canteen")
             GameState_new {[1]}).
Proof.
  split; [reflexivity|]. intros (txt & Hin). simpl in Hin. set_solver.
Qed.

(** C4 (amended): a [MoveRequest], [FlyInput], [JournalWriteRequest] or
    [RestRequest] from an identity with no character leaves the game state
    unchanged and sends nothing (it is only logged). *)
Theorem character_command_without_character_ignored
    (fr : Q -> Q -> Q -> Quat -> Quat) (gs : GameState) (cl : gset Uuid)
    (pid : Uuid) (m : ClientMessage)
    (Hcmd : character_command m) (Hnone : players gs !! pid = None) :
  handle_client_message fr pid m gs cl = (gs, []).
Proof.
  destruct m; simpl in Hcmd; try contradiction; simpl; by rewrite Hnone.
Qed.

Lemma character_command_without_character_ignored_witness :
  character_command (JournalWriteRequest "down with Big Brother") /\
  players GameState_new !! 3 = None /\
  handle_client_message fly_rotate_keep 3
    (JournalWriteRequest "down with Big Brother") GameState_new {[3]} =
    (GameState_new, []).
Proof.
  split; [exact I|]. split; [reflexivity|].
  apply (character_command_without_character_ignored fly_rotate_keep
           GameState_new {[3]} 3 (JournalWriteRequest "down with Big Brother"));
  [exact I | reflexivity].
Defined.

(* ------------------------------------------------------------------ *)
(** ** Reachable states: the location invariant *)

Lemma run_reachable fr srv is :
  reachable fr srv -> reachable fr (fst (run fr srv is)).
Proof.
  revert srv. induction is as [|i is IH]; intros srv Hr; simpl; [done|].
  destruct (input_ok srv i) eqn:Hok; [|by apply IH].
  destruct (server_step fr srv i) as [srv1 ev1] eqn:Hs.
  destruct (run fr srv1 is) as [srv2 ev2] eqn:Hrun. simpl.
  change srv2 with (fst (srv2, ev2)). rewrite <- Hrun. apply IH.
  change srv1 with (fst (srv1, ev1)). rewrite <- Hs. by constructor.
Qed.

Lemma remove_players_subseteq cl ids (p : gmap Uuid Character) :
  (remove_players cl ids p).1.1 ⊆ p.
Proof.
  revert p. induction ids as [|id ids IH]; intros p; simpl; [done|].
  destruct (p !! id) eqn:E.
  - destruct (remove_players cl ids (delete id p)) as [[p' b] evs] eqn:Er.
    simpl. transitivity (delete id p); [|apply delete_subseteq].
    specialize (IH (delete id p)). by rewrite Er in IH.
  - apply IH.
Qed.

Lemma game_tick_unfold srv :
  game_tick srv =
  let cl := clients srv in
  let sc := end_condition_scan cl (map_to_list (players (game_state srv))) in
  let rp := remove_players cl sc.1 (players (game_state srv)) in
  let gs' := set_players (game_state srv) (physics_update <$> rp.1.1) in
  (mkServer gs' cl,
   app sc.2 (app rp.2
     (if orb rp.1.2 (negb (bool_decide (rp.1.1 = ∅)))
      then broadcast_state_update cl gs' else []))).
Proof.
  unfold game_tick.
  destruct (end_condition_scan _ _) as [ids ev1].
  by destruct (remove_players _ _ _) as [[p1 ch] ev2].
Qed.

Lemma physics_update_location c : location (physics_update c) = location c.
Proof.
  unfold physics_update. simpl. by repeat destruct (Qlt_le_dec _ _).
Qed.

Lemma handle_client_message_world fr pid m gs cl :
  world_state (fst (handle_client_message fr pid m gs cl)) = world_state gs.
Proof.
  destruct m; simpl; repeat case_match; done.
Qed.

Lemma locations_ok_step fr srv i :
  locations_ok srv -> locations_ok (fst (server_step fr srv i)).
Proof.
  intros [Hw Hp]. destruct i as [pid|pid m| |pid]; simpl.
  - split; done.
  - destruct (handle_client_message fr pid m _ _) as [gs' evs] eqn:Eh. simpl.
    pose proof (handle_client_message_world fr pid m (game_state srv)
                  (clients srv)) as Hw'.
    rewrite Eh in Hw'. simpl in Hw'. split; simpl; [by rewrite Hw'|].
    destruct m; simpl in Eh; repeat case_match; simplify_eq; simpl;
      try done; apply map_Forall_insert_2; try done; simpl.
    + pose proof (apply_occupation_fields occ (Character_new pid nm occ))
        as [-> _]. simpl. by eexists.
    + rewrite <- Hw. eauto.
    + apply (Hp pid). done.
    + apply (Hp pid). done.
    + apply (Hp pid). done.
  - rewrite game_tick_unfold. simpl. split; [done|].
    apply map_Forall_fmap. intros id c Hc. unfold compose.
    rewrite physics_update_location.
    eapply Hp, lookup_weaken; [exact Hc|apply remove_players_subseteq].
  - unfold handle_disconnect. case_match; simpl; split; try done.
    by apply map_Forall_delete.
Qed.

Lemma reachable_locations_ok fr srv : reachable fr srv -> locations_ok srv.
Proof.
  induction 1 as [|srv i Hr IH Hok].
  - split; [done|]. apply map_Forall_empty.
  - by apply locations_ok_step.
Qed.

(** C2: in every reachable state each character's location is a key of
    the location table; a move to a target that is not a connection of the
    current location, or not a key, answers the sender alone with an error
    and changes nothing; a move satisfying both sets the location. *)
Theorem location_invariant_and_move (fr : Q -> Q -> Q -> Quat -> Quat)
    (srv : Server) (Hr : reachable fr srv) :
  let gs := game_state srv in
  (forall id c, players gs !! id = Some c ->
     is_Some (locations (world_state gs) !! location c)) /\
  (forall pid c cur tgt, players gs !! pid = Some c ->
     locations (world_state gs) !! location c = Some cur ->
     (tgt ∉ Loc.connections cur \/ locations (world_state gs) !! tgt = None) ->
     pid ∈ clients srv ->
     exists txt, handle_client_message fr pid (MoveRequest tgt) gs
                   (clients srv) = (gs, [Send pid (Error txt)])) /\
  (forall pid c cur tgt, players gs !! pid = Some c ->
     locations (world_state gs) !! location c = Some cur ->
     tgt ∈ Loc.connections cur -> is_Some (locations (world_state gs) !! tgt) ->
     players (fst (handle_client_message fr pid (MoveRequest tgt) gs
                     (clients srv))) !! pid = Some (set_location c tgt) /\
     location (set_location c tgt) = tgt).
Proof.
  intros gs. destruct (reachable_locations_ok fr srv Hr) as [Hw Hp].
  split; [|split].
  - intros id c Hc. unfold gs. rewrite Hw. exact (Hp id c Hc).
  - intros pid c cur tgt Hc Hcur Hbad Hin. simpl. rewrite Hc, Hcur.
    destruct (decide (tgt ∈ Loc.connections cur)) as [Hcon|Hcon].
    + destruct Hbad as [Hbad|Hbad]; [contradiction|]. rewrite Hbad.
      unfold send_message_to_client. case_decide; [eauto|contradiction].
    + unfold send_message_to_client. case_decide; [eauto|contradiction].
  - intros pid c cur tgt Hc Hcur Hcon [l Hl]. simpl. rewrite Hc, Hcur.
    rewrite decide_True by done. rewrite Hl. simpl.
    split; [apply lookup_insert_eq|reflexivity].
Qed.

Lemma location_invariant_and_move_witness :
  reachable fly_rotate_keep srv_one_player /\
  (exists txt, handle_client_message fly_rotate_keep 1
                 (MoveRequest "Canteen") (game_state srv_one_player)
                 (clients srv_one_player) =
               (game_state srv_one_player, [Send 1 (Error txt)])).
Proof.
  assert (Hr : reachable fly_rotate_keep srv_one_player)
    by (apply run_reachable; constructor).
  split; [exact Hr|].
  destruct (location_invariant_and_move fly_rotate_keep srv_one_player Hr)
    as (_ & Hbad & _).
  apply (Hbad 1 (apply_occupation "Records Department Worker"
                   (Character_new 1 "Winston" "Records Department Worker"))
           (Loc.mkLocation "Victory Mansions"
              "Your dilapidated apartment building. The telescreen on the wall continuously broadcasts Party propaganda."
              ["Ministry of Truth"; "Victory Square"] 3)).
  - reflexivity.
  - reflexivity.
  - left. simpl. intros H. apply list_elem_of_In in H. simpl in H.
    intuition discriminate.
  - change (1 ∈ ({[1]} ∪ ∅ : gset Uuid)). set_solver.
Defined.

(* ------------------------------------------------------------------ *)
(** ** Stat bounds *)

(** C1: the journal arm raises thoughtcrime with [u8::saturating_add(5)],
    which saturates at 255, not 100 (the rest arm adds [.min(100)]): the
    reachable state below has thoughtcrime 105. *)
Theorem journal_thoughtcrime_exceeds_100 :
  reachable fly_rotate_keep (fst (run fly_rotate_keep server_new journal_inputs)) /\
  option_map thoughtcrime
    (players (game_state (fst (run fly_rotate_keep server_new journal_inputs))) !! 1)
  = Some 105%Z.
Proof.
  split; [apply run_reachable; constructor|].
  vm_compute. reflexivity.
Qed.

(* ------------------------------------------------------------------ *)
(** ** The game tick: which characters remain *)

Lemma end_condition_scan_ids cl l j :
  j ∈ (end_condition_scan cl l).1 <-> exists c, (j, c) ∈ l /\ ends c = true.
Proof.
  induction l as [|[id c] l IH]; simpl.
  - split; [set_solver|]. intros (c & Hc & _). set_solver.
  - destruct (end_condition_scan cl l) as [ids evs] eqn:E. simpl in IH.
    assert (Hcons : forall P : Prop,
      (j ∈ ids <-> P) ->
      (j ∈ id :: ids <-> j = id \/ P)) by (intros P HP; by rewrite elem_of_cons, HP).
    assert (Hr : (exists c', (j, c') ∈ (id, c) :: l /\ ends c' = true) <->
                 ((j = id /\ ends c = true) \/
                  exists c', (j, c') ∈ l /\ ends c' = true)).
    { split.
      - intros (c' & Hin & He). apply elem_of_cons in Hin as [Heq|Hin].
        + injection Heq as -> ->. by left.
        + right. eauto.
      - intros [[-> He]|(c' & Hin & He)].
        + exists c. split; [left|done].
        + exists c'. split; [by right|done]. }
    rewrite Hr. unfold ends at 1.
    destruct (Z.eqb (health c) 0) eqn:Eh; simpl;
      [|destruct (Z.leb 100 (suspicion c)) eqn:Es]; simpl;
      [rewrite (Hcons _ IH) ..|rewrite IH]; intuition congruence.
Qed.

Lemma remove_players_lookup cl ids (p : gmap Uuid Character) j :
  (remove_players cl ids p).1.1 !! j =
    if decide (j ∈ ids) then None else p !! j.
Proof.
  revert p. induction ids as [|id ids IH]; intros p; simpl; [done|].
  destruct (p !! id) eqn:E.
  - destruct (remove_players cl ids (delete id p)) as [[p' b] evs] eqn:Er.
    simpl. specialize (IH (delete id p)). rewrite Er in IH. simpl in IH.
    rewrite IH. destruct (decide (j = id)) as [->|Hne].
    + rewrite lookup_delete_eq. repeat case_decide; set_solver.
    + rewrite lookup_delete_ne by done. repeat case_decide; set_solver.
  - rewrite IH. destruct (decide (j = id)) as [->|Hne].
    + repeat case_decide; set_solver.
    + repeat case_decide; set_solver.
Qed.

Lemma game_tick_lookup srv j :
  players (game_state (fst (game_tick srv))) !! j =
    match players (game_state srv) !! j with
    | Some c => if ends c then None else Some (physics_update c)
    | None => None
    end.
Proof.
  rewrite game_tick_unfold. simpl. rewrite lookup_fmap, remove_players_lookup.
  case_decide as Hj.
  - apply end_condition_scan_ids in Hj as (c & Hc & He).
    apply elem_of_map_to_list in Hc. by rewrite Hc, He.
  - destruct (players (game_state srv) !! j) as [c|] eqn:Hc; [|done].
    destruct (ends c) eqn:He; [|done].
    exfalso. apply Hj, end_condition_scan_ids. exists c.
    split; [by apply elem_of_map_to_list|done].
Qed.

(* ------------------------------------------------------------------ *)
(** ** The game tick: physics *)

Lemma physics_update_agrees c :
  exists p v,
    physics_update c = set_flight c p v (orientation c) (throttle c) /\
    vec_eq p (flight_step_spec (981 # 100) (1 # 2) 20 FRAME_TIME (9 # 10) c).1 /\
    vec_eq v (flight_step_spec (981 # 100) (1 # 2) 20 FRAME_TIME (9 # 10) c).2.
Proof.
  unfold physics_update, flight_step_spec. cbv zeta.
  set (V1 := vadd (velocity c) (vscale (vadd (vadd (vscale (vscale
               (quat_rotate (orientation c) z_axis) (throttle c)) 20) gravity)
               (vscale (vneg (velocity c)) drag_coefficient)) FRAME_TIME)).
  set (P1 := vadd (position c) (vscale V1 FRAME_TIME)).
  set (SV := spec_velocity (981 # 100) (1 # 2) 20 FRAME_TIME c).
  set (SP := spec_position (981 # 100) (1 # 2) 20 FRAME_TIME c).
  assert (HV : vec_eq V1 SV).
  { unfold V1, SV, spec_velocity, spec_net_force, vec_eq, gravity,
      drag_coefficient, FRAME_TIME, vadd, vscale, vneg. cbn [vx vy vz].
    repeat split; ring. }
  assert (HP : vec_eq P1 SP).
  { unfold SP, spec_position. fold SV. destruct HV as (Hx & Hy & Hz).
    unfold P1, vec_eq, vadd, vscale. cbn [vx vy vz].
    rewrite Hx, Hy, Hz. repeat split; reflexivity. }
  destruct HV as (HVx & HVy & HVz). destruct HP as (HPx & HPy & HPz).
  destruct (Qlt_le_dec (vy P1) 0) as [H1|H1];
    destruct (Qlt_le_dec (vy SP) 0) as [H2|H2].
  - eexists _, _. split; [reflexivity|]. cbn [fst snd vx vy vz].
    unfold vec_eq. cbn [vx vy vz].
    destruct (Qlt_le_dec (vy V1) 0) as [H3|H3];
      destruct (Qlt_le_dec (vy SV) 0) as [H4|H4].
    + split; [split; [exact HPx|split; [reflexivity|exact HPz]]|].
      split; [rewrite HVx; ring|split; [reflexivity|rewrite HVz; ring]].
    + exfalso. rewrite HVy in H3. by apply (Qle_not_lt _ _ H4).
    + exfalso. rewrite HVy in H3. by apply (Qle_not_lt _ _ H3).
    + split; [split; [exact HPx|split; [reflexivity|exact HPz]]|].
      split; [rewrite HVx; ring|split; [exact HVy|rewrite HVz; ring]].
  - exfalso. rewrite HPy in H1. by apply (Qle_not_lt _ _ H2).
  - exfalso. rewrite HPy in H1. by apply (Qle_not_lt _ _ H1).
  - eexists _, _. split; [reflexivity|]. cbn [fst snd].
    unfold vec_eq. repeat split; assumption.
Qed.

(** C8: on every tick, every character that stays (health not 0,
    suspicion below 100) gets the semi-implicit Euler step with gravity
    9.81 downwards, linear drag 0.5 against the velocity, thrust
    20 * throttle along the orientation-rotated forward axis, tick 1/30
    and, below the ground plane y = 0, clamping, zeroing of a downward
    vertical velocity and horizontal friction 0.9; orientation and
    throttle are kept. *)
Theorem tick_physics_semi_implicit_euler (srv : Server) (id : Uuid)
    (c : Character) (Hc : players (game_state srv) !! id = Some c)
    (Hh : health c <> 0%Z) (Hs : (suspicion c < 100)%Z) :
  exists p v,
    players (game_state (fst (game_tick srv))) !! id =
      Some (set_flight c p v (orientation c) (throttle c)) /\
    vec_eq p (flight_step_spec (981 # 100) (1 # 2) 20 FRAME_TIME (9 # 10) c).1 /\
    vec_eq v (flight_step_spec (981 # 100) (1 # 2) 20 FRAME_TIME (9 # 10) c).2.
Proof.
  rewrite game_tick_lookup, Hc.
  assert (He : ends c = false).
  { unfold ends. apply orb_false_iff. split.
    - by apply Z.eqb_neq.
    - apply Z.leb_gt. exact Hs. }
  rewrite He.
  destruct (physics_update_agrees c) as (p & v & Heq & Hp & Hv).
  exists p, v. rewrite Heq. auto.
Qed.

Lemma tick_physics_semi_implicit_euler_witness :
  players (game_state srv_one_player) !! 1 =
    Some (apply_occupation "Records Department Worker"
            (Character_new 1 "Winston" "Records Department Worker")) /\
  exists p v,
    players (game_state (fst (game_tick srv_one_player))) !! 1 =
      Some (set_flight (apply_occupation "Records Department Worker"
                          (Character_new 1 "Winston" "Records Department Worker"))
              p v quat_identity 0) /\
    vec_eq p (flight_step_spec (981 # 100) (1 # 2) 20 FRAME_TIME (9 # 10)
               (apply_occupation "Records Department Worker"
                  (Character_new 1 "Winston" "Records Department Worker"))).1 /\
    vec_eq v (flight_step_spec (981 # 100) (1 # 2) 20 FRAME_TIME (9 # 10)
               (apply_occupation "Records Department Worker"
                  (Character_new 1 "Winston" "Records Department Worker"))).2.
Proof.
  split; [reflexivity|].
  apply (tick_physics_semi_implicit_euler srv_one_player 1
           (apply_occupation "Records Department Worker"
              (Character_new 1 "Winston" "Records Department Worker"))).
  - reflexivity.
  - vm_compute. discriminate.
  - vm_compute. reflexivity.
Defined.

(* ------------------------------------------------------------------ *)
(** ** The game tick: removal of ended characters *)

Lemma count_by_app f l1 l2 :
  count_by f (app l1 l2) = count_by f l1 + count_by f l2.
Proof. induction l1; simpl; lia. Qed.

Lemma count_by_zero f l :
  (forall e, e ∈ l -> f e = false) -> count_by f l = 0.
Proof.
  induction l as [|e l IH]; intros H; simpl; [done|].
  rewrite H by (left). rewrite IH; [done|]. intros e' He'. apply H. by right.
Qed.

Lemma count_by_send f cl id m :
  count_by f (send_message_to_client cl id m) =
    if decide (id ∈ cl) then (if f (Send id m) then 1 else 0) else 0.
Proof. unfold send_message_to_client. case_decide; simpl; lia. Qed.

Lemma count_by_state_update f cl gs :
  (forall k, f (Send k (GameStateUpdate gs)) = false) ->
  count_by f (broadcast_state_update cl gs) = 0.
Proof.
  intros Hf. apply count_by_zero. intros e He.
  unfold broadcast_state_update in He. apply list_elem_of_fmap in He as (k & -> & _).
  apply Hf.
Qed.

Lemma count_left_sends k id (L : list Uuid) :
  NoDup L ->
  count_by (is_left_to k id) ((fun j => Send j (PlayerLeft id)) <$> L) =
    if decide (k ∈ L) then 1 else 0.
Proof.
  induction L as [|j L IH]; intros Hnd.
  { rewrite decide_False by set_solver. reflexivity. }
  rewrite fmap_cons. cbn [count_by is_left_to].
  apply NoDup_cons in Hnd as [Hj Hnd]. rewrite IH by done.
  rewrite Nat.eqb_refl, andb_true_r.
  destruct (Nat.eqb_spec j k) as [->|Hne].
  - rewrite decide_False by done. rewrite decide_True by set_solver. done.
  - repeat case_decide; set_solver.
Qed.

Lemma count_left_broadcast k id cl :
  count_by (is_left_to k id) (broadcast_message cl (Some id) (PlayerLeft id)) =
    if decide (k ∈ cl /\ k <> id) then 1 else 0.
Proof.
  unfold broadcast_message. rewrite count_left_sends.
  - apply decide_ext. rewrite list_elem_of_filter, elem_of_elements.
    split; intros [H1 H2]; split; congruence.
  - apply NoDup_filter, NoDup_elements.
Qed.

Lemma count_other_broadcast f cl j m :
  (forall k, f (Send k m) = false) ->
  count_by f (broadcast_message cl (Some j) m) = 0.
Proof.
  intros Hf. apply count_by_zero. intros e He.
  apply elem_of_broadcast_message in He as (k & -> & _). apply Hf.
Qed.

Lemma end_condition_scan_cons cl id c l :
  end_condition_scan cl ((id, c) :: l) =
    (if ends c then id :: (end_condition_scan cl l).1
     else (end_condition_scan cl l).1,
     app (if ends c then send_message_to_client cl id
                           (NarrativeUpdate (cause_text c)) else [])
         (end_condition_scan cl l).2).
Proof.
  simpl. destruct (end_condition_scan cl l) as [ids evs].
  unfold ends, cause_text.
  destruct (Z.eqb (health c) 0); simpl; [done|].
  by destruct (Z.leb 100 (suspicion c)).
Qed.

Lemma end_condition_scan_nodup cl l :
  NoDup l.*1 -> NoDup (end_condition_scan cl l).1.
Proof.
  induction l as [|[j c] l IH]; intros Hnd; [simpl; constructor|].
  rewrite fmap_cons in Hnd. apply NoDup_cons in Hnd as [Hj Hnd].
  rewrite end_condition_scan_cons. cbn [fst]. destruct (ends c); [|by apply IH].
  apply NoDup_cons. split; [|by apply IH].
  intros Hin. apply end_condition_scan_ids in Hin as (c' & Hin & _).
  apply Hj. apply list_elem_of_fmap. exists (j, c'). auto.
Qed.

Lemma scan_count_narrative_absent cl l id txt :
  id ∉ l.*1 ->
  count_by (is_narrative_to id txt) (end_condition_scan cl l).2 = 0.
Proof.
  induction l as [|[j c] l IH]; intros Hid; [done|].
  rewrite fmap_cons in Hid. apply not_elem_of_cons in Hid as [Hne Hid].
  simpl in Hne. rewrite end_condition_scan_cons. cbn [snd]. rewrite count_by_app, IH by done.
  destruct (ends c); [|done]. rewrite count_by_send. cbn [is_narrative_to].
  destruct (Nat.eqb_spec j id); [congruence|]. by case_decide.
Qed.

Lemma scan_count_narrative cl l id c txt :
  NoDup l.*1 -> (id, c) ∈ l -> id ∈ cl ->
  count_by (is_narrative_to id txt) (end_condition_scan cl l).2 =
    if ends c then (if String.eqb (cause_text c) txt then 1 else 0) else 0.
Proof.
  induction l as [|[j c'] l IH]; intros Hnd Hin Hcl; [set_solver|].
  rewrite fmap_cons in Hnd. apply NoDup_cons in Hnd as [Hj Hnd].
  rewrite end_condition_scan_cons. cbn [snd]. rewrite count_by_app.
  apply elem_of_cons in Hin as [Heq|Hin].
  - injection Heq as -> ->.
    rewrite scan_count_narrative_absent by done.
    destruct (ends c'); [|done]. rewrite count_by_send, decide_True by done.
    cbn [is_narrative_to]. rewrite Nat.eqb_refl. simpl. by destruct (String.eqb _ _).
  - assert (Hne : id <> j).
    { intros ->. apply Hj, list_elem_of_fmap. exists (j, c). auto. }
    rewrite (IH Hnd Hin Hcl).
    destruct (ends c'); [|done]. rewrite count_by_send. cbn [is_narrative_to].
    destruct (Nat.eqb_spec j id); [congruence|]. by case_decide.
Qed.

Lemma scan_events_narratives cl l e :
  e ∈ (end_condition_scan cl l).2 -> exists k t, e = Send k (NarrativeUpdate t).
Proof.
  induction l as [|[j c] l IH]; [simpl; set_solver|].
  rewrite end_condition_scan_cons. cbn [snd]. rewrite elem_of_app.
  intros [He|He]; [|by apply IH].
  destruct (ends c); [|set_solver]. unfold send_message_to_client in He.
  case_decide; [|set_solver]. apply list_elem_of_singleton in He. eauto.
Qed.

Lemma remove_players_events cl ids (p : gmap Uuid Character) :
  NoDup ids -> (forall j, j ∈ ids -> is_Some (p !! j)) ->
  (remove_players cl ids p).2 = concat (removal_block cl <$> ids).
Proof.
  revert p. induction ids as [|j ids IH]; intros p Hnd Hs; [done|].
  apply NoDup_cons in Hnd as [Hj Hnd].
  destruct (Hs j ltac:(by left)) as [x Hx].
  simpl. rewrite Hx.
  destruct (remove_players cl ids (delete j p)) as [[p' b] evs] eqn:Er.
  simpl. specialize (IH (delete j p) Hnd). rewrite Er in IH. simpl in IH.
  rewrite IH; [done|].
  intros j' Hj'. rewrite lookup_delete_ne by set_solver. apply Hs. by right.
Qed.

Lemma count_concat_zero f (g : Uuid -> list event) ids :
  (forall j, j ∈ ids -> count_by f (g j) = 0) ->
  count_by f (concat (g <$> ids)) = 0.
Proof.
  induction ids as [|j ids IH]; intros H; [done|].
  rewrite fmap_cons. simpl concat. rewrite count_by_app, H, IH by set_solver.
  done.
Qed.

Lemma count_concat_single f (g : Uuid -> list event) ids id :
  NoDup ids -> id ∈ ids ->
  (forall j, j ∈ ids -> j <> id -> count_by f (g j) = 0) ->
  count_by f (concat (g <$> ids)) = count_by f (g id).
Proof.
  induction ids as [|j ids IH]; intros Hnd Hin H; [set_solver|].
  apply NoDup_cons in Hnd as [Hj Hnd].
  rewrite fmap_cons. simpl concat. rewrite count_by_app.
  apply elem_of_cons in Hin as [->|Hin].
  - rewrite count_concat_zero; [lia|].
    intros j' Hj'. apply H; [by right|]. intros ->. contradiction.
  - rewrite H by set_solver. rewrite IH; [done|done|done|].
    intros j' Hj' Hne. apply H; [by right|done].
Qed.

Lemma game_tick_events srv :
  exists fin,
    snd (game_tick srv) =
      app (end_condition_scan (clients srv)
             (map_to_list (players (game_state srv)))).2
          (app (remove_players (clients srv)
                  (end_condition_scan (clients srv)
                     (map_to_list (players (game_state srv)))).1
                  (players (game_state srv))).2 fin) /\
    (forall e, e ∈ fin -> exists k gs, e = Send k (GameStateUpdate gs)).
Proof.
  rewrite game_tick_unfold. cbv zeta. cbn [snd].
  eexists. split; [reflexivity|].
  intros e He. case_match; [|set_solver].
  unfold broadcast_state_update in He.
  apply list_elem_of_fmap in He as (k & -> & _). eauto.
Qed.

Lemma ends_of_end_condition c :
  health c = 0%Z \/ (100 <= suspicion c)%Z -> ends c = true.
Proof.
  unfold ends. intros [H|H].
  - rewrite H. reflexivity.
  - apply orb_true_iff. right. by apply Z.leb_le.
Qed.

(** C9: a connected character whose health is 0 or whose suspicion is at
    least 100 when the tick starts is removed from the players in that tick;
    the tick's events contain exactly one narrative to it, with the text of
    its cause (death when health is 0, arrest otherwise, two different
    texts), and no other narrative to it; exactly one "player left" for it
    to every other connected client and none to itself; exactly one close
    frame to it; and the narrative comes before all of these. *)
Theorem tick_removes_ended_character (srv : Server) (id : Uuid)
    (c : Character) (Hc : players (game_state srv) !! id = Some c)
    (Hend : health c = 0%Z \/ (100 <= suspicion c)%Z)
    (Hcl : id ∈ clients srv) :
  let txt := if Z.eqb (health c) 0 then death_text else arrest_text in
  let evs := snd (game_tick srv) in
  players (game_state (fst (game_tick srv))) !! id = None /\
  death_text <> arrest_text /\
  count_by (is_narrative_to id txt) evs = 1 /\
  (forall t, t <> txt -> count_by (is_narrative_to id t) evs = 0) /\
  (forall k, k ∈ clients srv -> k <> id -> count_by (is_left_to k id) evs = 1) /\
  count_by (is_left_to id id) evs = 0 /\
  count_by (is_close_to id) evs = 1 /\
  exists pre post, evs = app pre post /\
    count_by (is_narrative_to id txt) pre = 1 /\
    count_by (is_close_to id) pre = 0 /\
    (forall k, count_by (is_left_to k id) pre = 0).
Proof.
  intros txt evs.
  pose proof (ends_of_end_condition c Hend) as He.
  set (cl := clients srv). set (p := players (game_state srv)).
  set (sc := end_condition_scan cl (map_to_list p)).
  assert (Hnd : NoDup (map_to_list p).*1) by apply NoDup_fst_map_to_list.
  assert (Hin : (id, c) ∈ map_to_list p) by by apply elem_of_map_to_list.
  assert (Hids : NoDup sc.1) by by apply end_condition_scan_nodup.
  assert (Hid : id ∈ sc.1) by (apply end_condition_scan_ids; eauto).
  assert (Hs : forall j, j ∈ sc.1 -> is_Some (p !! j)).
  { intros j Hj. apply end_condition_scan_ids in Hj as (c' & Hj & _).
    apply elem_of_map_to_list in Hj. eauto. }
  destruct (game_tick_events srv) as (fin & Hev & Hfin).
  fold cl p sc in Hev. unfold evs. rewrite Hev.
  rewrite (remove_players_events cl sc.1 p Hids Hs).
  assert (Hfin0 : forall f, (forall k gs, f (Send k (GameStateUpdate gs)) = false) ->
                  count_by f fin = 0).
  { intros f Hf. apply count_by_zero. intros e Hef.
    destruct (Hfin e Hef) as (k & gs & ->). apply Hf. }
  assert (Htxt : cause_text c = txt) by reflexivity.
  (* the scan events *)
  assert (Hscan : forall t, count_by (is_narrative_to id t) sc.2 =
                            if String.eqb txt t then 1 else 0).
  { intros t. unfold sc. rewrite (scan_count_narrative cl _ id c t Hnd Hin Hcl).
    by rewrite He, Htxt. }
  assert (Hscan_only : forall f, (forall k t, f (Send k (NarrativeUpdate t)) = false) ->
                       count_by f sc.2 = 0).
  { intros f Hf. apply count_by_zero. intros e Hes.
    destruct (scan_events_narratives cl _ e Hes) as (k & t & ->). apply Hf. }
  (* the removal events *)
  assert (Hrem_narr : forall t, count_by (is_narrative_to id t)
                         (concat (removal_block cl <$> sc.1)) = 0).
  { intros t. apply count_concat_zero. intros j _. unfold removal_block.
    rewrite count_by_app, count_other_broadcast by done.
    by case_decide. }
  split; [rewrite game_tick_lookup, Hc, He; reflexivity|].
  split; [discriminate|].
  split.
  { rewrite !count_by_app, Hscan, Hrem_narr, Hfin0 by done.
    by rewrite String.eqb_refl. }
  split.
  { intros t Ht. rewrite !count_by_app, Hscan, Hrem_narr, Hfin0 by done.
    destruct (String.eqb_spec txt t); [congruence|done]. }
  split.
  { intros k Hk Hne. rewrite !count_by_app, Hscan_only, Hfin0 by done.
    rewrite (count_concat_single _ _ _ id Hids Hid).
    - unfold removal_block. rewrite count_by_app, count_left_broadcast.
      rewrite decide_True by done. by case_decide.
    - intros j _ Hj. unfold removal_block.
      rewrite count_by_app, count_other_broadcast.
      + case_decide; [|done]. done.
      + intros k'. simpl. destruct (Nat.eqb_spec j id); [congruence|].
        apply andb_false_r. }
  split.
  { rewrite !count_by_app, Hscan_only, Hfin0 by done.
    rewrite (count_concat_single _ _ _ id Hids Hid).
    - unfold removal_block. rewrite count_by_app, count_left_broadcast.
      rewrite decide_False by tauto. by case_decide.
    - intros j _ Hj. unfold removal_block.
      rewrite count_by_app, count_other_broadcast.
      + case_decide; [|done]. done.
      + intros k'. simpl. destruct (Nat.eqb_spec j id); [congruence|].
        apply andb_false_r. }
  split.
  { rewrite !count_by_app, Hscan_only, Hfin0 by done.
    rewrite (count_concat_single _ _ _ id Hids Hid).
    - unfold removal_block. rewrite count_by_app, count_other_broadcast by done.
      rewrite decide_True by done. simpl. by rewrite Nat.eqb_refl.
    - intros j _ Hj. unfold removal_block.
      rewrite count_by_app, count_other_broadcast by done.
      case_decide; simpl; [|done].
      by destruct (Nat.eqb_spec j id). }
  exists sc.2, (app (concat (removal_block cl <$> sc.1)) fin).
  split; [reflexivity|].
  split; [rewrite Hscan; by rewrite String.eqb_refl|].
  split; [by apply Hscan_only|].
  intros k. by apply Hscan_only.
Qed.

Lemma tick_removes_ended_character_witness :
  players (game_state (fst (game_tick srv_dead_player))) !! 1 = None /\
  count_by (is_close_to 1) (snd (game_tick srv_dead_player)) = 1 /\
  count_by (is_left_to 2 1) (snd (game_tick srv_dead_player)) = 1.
Proof.
  destruct (tick_removes_ended_character srv_dead_player 1
              (set_health (Character_new 1 "Winston" "Records Department Worker") 0))
    as (H1 & _ & _ & _ & H5 & _ & H7 & _).
  - reflexivity.
  - left. reflexivity.
  - change (1 ∈ ({[1; 2]} : gset Uuid)). set_solver.
  - split; [exact H1|]. split; [exact H7|]. apply H5.
    + change (2 ∈ ({[1; 2]} : gset Uuid)). set_solver.
    + discriminate.
Defined.

(* ------------------------------------------------------------------ *)
(** ** The orientation step of [FlyInput] *)

Lemma qnorm2_qmul a b : (qnorm2 (qmul a b) == qnorm2 a * qnorm2 b)%Q.
Proof. unfold qnorm2, qmul. simpl. ring. Qed.

Lemma qnorm2_from_axis_angle sin cos axis angle :
  (qnorm2 (from_axis_angle sin cos axis angle) ==
   cos (angle / 2) * cos (angle / 2) +
   sin (angle / 2) * sin (angle / 2) * vnorm2 axis)%Q.
Proof. unfold qnorm2, from_axis_angle, vnorm2. simpl. ring. Qed.

Lemma vnorm2_unit_new_normalize sqrt v :
  (0 < vnorm2 v)%Q -> (sqrt (vnorm2 v) * sqrt (vnorm2 v) == vnorm2 v)%Q ->
  (vnorm2 (unit_new_normalize sqrt v) == 1)%Q.
Proof.
  intros Hpos Hs. unfold unit_new_normalize. cbv zeta.
  set (n := vnorm2 v) in *. set (r := sqrt n) in *.
  assert (Hr : ~ (r == 0)%Q).
  { intros H0. rewrite H0 in Hs. lra. }
  transitivity (n / (r * r))%Q.
  - unfold vnorm2 at 1. simpl. unfold n, vnorm2. field. exact Hr.
  - rewrite Hs. field. lra.
Qed.

Lemma qnorm2_axis_quat sin cos sqrt v angle :
  (forall x, sin x * sin x + cos x * cos x == 1)%Q ->
  (0 < vnorm2 v)%Q -> (sqrt (vnorm2 v) * sqrt (vnorm2 v) == vnorm2 v)%Q ->
  (qnorm2 (from_axis_angle sin cos (unit_new_normalize sqrt v) angle) == 1)%Q.
Proof.
  intros Hsc Hpos Hs. rewrite qnorm2_from_axis_angle.
  rewrite (vnorm2_unit_new_normalize sqrt v Hpos Hs).
  specialize (Hsc (angle / 2)%Q). lra.
Qed.

(** C7: the [FlyInput] arm sets the orientation to the product
    [yaw_quat * pitch_quat * roll_quat * orientation], each axis the current
    orientation applied to a reference axis and normalized, and nothing
    renormalizes the product: the squared norm of the new orientation is
    that of the old one, so an orientation off unit norm is never brought
    back to norm 1 (the spec's "then renormalized to unit length" has no
    counterpart in the code). *)
Theorem fly_input_orientation_not_renormalized (sin cos sqrt : Q -> Q)
    (Hsc : forall x, (sin x * sin x + cos x * cos x == 1)%Q)
    (pid : Uuid) (pitch roll yaw tc : Q) (gs : GameState) (cl : gset Uuid)
    (c : Character) (Hc : players gs !! pid = Some c)
    (Hax : Forall (fun a => let n := vnorm2 (quat_rotate (orientation c) a) in
                    (0 < n)%Q /\ (sqrt n * sqrt n == n)%Q)
             [x_axis; y_axis; z_axis]) :
  let rs := ((3 # 2) * FRAME_TIME)%Q in
  let o := orientation c in
  let axis a := unit_new_normalize sqrt (quat_rotate o a) in
  let pitch_quat := from_axis_angle sin cos (axis x_axis) (pitch * rs)%Q in
  let roll_quat := from_axis_angle sin cos (axis z_axis) (roll * rs)%Q in
  let yaw_quat := from_axis_angle sin cos (axis y_axis) (yaw * rs)%Q in
  exists c',
    players (fst (handle_client_message (fly_rotate_nalgebra sin cos sqrt) pid
                    (FlyInput pitch roll yaw tc) gs cl)) !! pid = Some c' /\
    orientation c' = qmul (qmul (qmul yaw_quat pitch_quat) roll_quat) o /\
    (qnorm2 (orientation c') == qnorm2 o)%Q /\
    (~ (qnorm2 o == 1)%Q -> ~ (qnorm2 (orientation c') == 1)%Q).
Proof.
  intros rs o axis pitch_quat roll_quat yaw_quat.
  apply Forall_cons in Hax as [[Hx1 Hx2] Hax].
  apply Forall_cons in Hax as [[Hy1 Hy2] Hax].
  apply Forall_cons in Hax as [[Hz1 Hz2] _].
  assert (Hn : (qnorm2 (qmul (qmul (qmul yaw_quat pitch_quat) roll_quat) o) ==
                qnorm2 o)%Q).
  { rewrite !qnorm2_qmul.
    unfold yaw_quat, pitch_quat, roll_quat, axis, o.
    rewrite (qnorm2_axis_quat sin cos sqrt _ (yaw * rs)%Q Hsc Hy1 Hy2),
            (qnorm2_axis_quat sin cos sqrt _ (pitch * rs)%Q Hsc Hx1 Hx2),
            (qnorm2_axis_quat sin cos sqrt _ (roll * rs)%Q Hsc Hz1 Hz2).
    ring. }
  simpl. rewrite Hc. simpl.
  eexists. split; [apply lookup_insert_eq|]. simpl.
  split; [reflexivity|]. split; [exact Hn|].
  intros Hne Heq. apply Hne. rewrite <- Hn. exact Heq.
Qed.

(** A character whose orientation has norm 2, sine 0 and cosine 1. *)
Lemma fly_input_orientation_not_renormalized_witness :
  exists c',
    players (fst (handle_client_message
                    (fly_rotate_nalgebra (fun _ => 0%Q) (fun _ => 1%Q) (fun x => x))
                    1 (FlyInput 1 0 0 0)
                    (set_players GameState_new
                       {[1 := set_flight (Character_new 1 "Winston" "Outer Party")
                                vzero vzero (mkQuat 2 0 0 0) 0]})
                    {[1]})) !! 1 = Some c' /\
    (qnorm2 (orientation c') == 4)%Q.
Proof.
  destruct (fly_input_orientation_not_renormalized (fun _ => 0%Q) (fun _ => 1%Q)
              (fun x => x) ltac:(intros x; reflexivity) 1 1 0 0 0
              (set_players GameState_new
                 {[1 := set_flight (Character_new 1 "Winston" "Outer Party")
                          vzero vzero (mkQuat 2 0 0 0) 0]})
              {[1]}
              (set_flight (Character_new 1 "Winston" "Outer Party")
                 vzero vzero (mkQuat 2 0 0 0) 0))
    as (c' & Hl & _ & Hn & _).
  - reflexivity.
  - repeat constructor.
  - exists c'. split; [exact Hl|]. eapply Qeq_trans; [exact Hn|reflexivity].
Defined.

(* ------------------------------------------------------------------ *)
(** ** main.rs: Bresenham's [draw_line] *)

Section DrawLine.
Local Open Scope Z_scope.
Import MainSim.

Lemma bresenham_step (dx dy a b err : Z) :
  0 <= a <= dx -> 0 <= b <= dy -> err = dx - dy - a * dy + b * dx ->
  ~ (a = dx /\ b = dy) ->
  let a' := if - dy <? 2 * err then a + 1 else a in
  let b' := if 2 * err <? dx then b + 1 else b in
  0 <= a' <= dx /\ 0 <= b' <= dy /\ a + b < a' + b'.
Proof.
  intros Ha Hb Herr Hne a' b'. subst a' b' err.
  destruct (Z.ltb_spec (- dy) (2 * (dx - dy - a * dy + b * dx))) as [H1|H1];
  destruct (Z.ltb_spec (2 * (dx - dy - a * dy + b * dx)) dx) as [H2|H2].
  - assert (a < dx).
    { destruct (Z.eq_dec a dx) as [->|]; [|lia].
      assert (b < dy) by lia. nia. }
    assert (b < dy).
    { destruct (Z.eq_dec b dy) as [->|]; [|lia].
      nia. }
    lia.
  - assert (a < dx).
    { destruct (Z.eq_dec a dx) as [->|]; [|lia].
      assert (b < dy) by lia. nia. }
    lia.
  - assert (b < dy).
    { destruct (Z.eq_dec b dy) as [->|]; [|lia].
      assert (a < dx) by lia. nia. }
    lia.
  - exfalso. nia.
Qed.

Lemma in_screen_pixel_index w h x y :
  in_screen w h x y = true -> (pixel_index w x y < w * h)%nat.
Proof.
  unfold in_screen, pixel_index. rewrite !andb_true_iff, !Z.leb_le, !Z.ltb_lt.
  intros [[[H1 H2] H3] H4]. nia.
Qed.

Lemma put_pixel_full buf w h x y c :
  length buf = (w * h)%nat ->
  put_pixel buf w h x y c =
    Some (if in_screen w h x y then <[pixel_index w x y := c]> buf else buf).
Proof.
  intros Hl. unfold put_pixel. destruct (in_screen w h x y) eqn:E; [|done].
  pose proof (in_screen_pixel_index w h x y E).
  cbv zeta. rewrite (proj2 (Nat.ltb_lt _ _)) by lia. done.
Qed.

Lemma put_pixel_inv buf w h x y c buf1 :
  put_pixel buf w h x y c = Some buf1 ->
  buf1 = (if in_screen w h x y then <[pixel_index w x y := c]> buf else buf) /\
  (in_screen w h x y = true -> (pixel_index w x y < length buf)%nat).
Proof.
  unfold put_pixel. destruct (in_screen w h x y); [|intros [=]; done].
  cbv zeta. destruct (Nat.ltb_spec (pixel_index w x y) (length buf)); [|done].
  intros [=]. split; [done|]. intros _. done.
Qed.

Lemma sign_step x0 x1 a dx sx :
  sx * dx = x1 - x0 -> (sx = 1 \/ sx = -1) ->
  (x0 + sx * a =? x1) = (a =? dx).
Proof.
  intros H Hs. destruct (Z.eqb_spec (x0 + sx * a) x1);
    destruct (Z.eqb_spec a dx); destruct Hs; subst sx; lia.
Qed.

Section Loop.
Variables (w h : nat) (x0 y0 x1 y1 dx dy sx sy color : Z).
Hypotheses (Hsx : sx * dx = x1 - x0) (Hsx1 : sx = 1 \/ sx = -1)
  (Hsy : sy * dy = y1 - y0) (Hsy1 : sy = 1 \/ sy = -1).

Local Ltac loop_case IH a' b' :=
  first [ specialize (IH _ a' b' ltac:(lia) ltac:(lia)) | lia ].

Lemma draw_line_loop_unfold fuel buf a b :
  MainSim.draw_line_loop (S fuel) buf w h x1 y1 dx dy sx sy
    (dx - dy - a * dy + b * dx) (x0 + sx * a) (y0 + sy * b) color =
  match put_pixel buf w h (x0 + sx * a) (y0 + sy * b) color with
  | None => None
  | Some buf1 =>
      if (a =? dx) && (b =? dy) then Some buf1
      else
        let a' := if - dy <? 2 * (dx - dy - a * dy + b * dx) then a + 1 else a in
        let b' := if 2 * (dx - dy - a * dy + b * dx) <? dx then b + 1 else b in
        MainSim.draw_line_loop fuel buf1 w h x1 y1 dx dy sx sy
          (dx - dy - a' * dy + b' * dx) (x0 + sx * a') (y0 + sy * b') color
  end.
Proof.
  cbn [MainSim.draw_line_loop]. destruct (put_pixel _ _ _ _ _ _) as [buf1|]; [|done].
  rewrite (sign_step x0 x1 a dx sx), (sign_step y0 y1 b dy sy) by done.
  destruct (_ && _); [done|]. cbv zeta.
  destruct (Z.ltb_spec (- dy) (2 * (dx - dy - a * dy + b * dx)));
  destruct (Z.ltb_spec (2 * (dx - dy - a * dy + b * dx)) dx);
    f_equal; lia.
Qed.

Lemma draw_line_loop_some fuel buf a b :
  0 <= a <= dx -> 0 <= b <= dy -> length buf = (w * h)%nat ->
  (Z.to_nat ((dx - a) + (dy - b)) < fuel)%nat ->
  exists buf', MainSim.draw_line_loop fuel buf w h x1 y1 dx dy sx sy
                 (dx - dy - a * dy + b * dx) (x0 + sx * a) (y0 + sy * b) color
               = Some buf' /\ length buf' = length buf.
Proof.
  revert buf a b. induction fuel as [|fuel IH]; intros buf a b Ha Hb Hlen Hf; [lia|].
  rewrite draw_line_loop_unfold, put_pixel_full by done.
  set (buf1 := if in_screen w h _ _ then _ else buf).
  assert (Hl1 : length buf1 = length buf).
  { subst buf1. destruct (in_screen _ _ _ _); [apply length_insert|done]. }
  destruct (Z.eqb_spec a dx) as [Ea|Hadx]; destruct (Z.eqb_spec b dy) as [Eb|Hbdy];
    simpl; [subst; eauto| | |].
  all: pose proof (bresenham_step dx dy a b _ Ha Hb eq_refl ltac:(lia)) as Hst;
       cbv zeta in Hst |- *.
  all: destruct (Z.ltb_spec (- dy) (2 * (dx - dy - a * dy + b * dx)));
       destruct (Z.ltb_spec (2 * (dx - dy - a * dy + b * dx)) dx).
  all: destruct Hst as (Ha' & Hb' & Hlt).
  all: edestruct (IH buf1) as (buf' & Hr & Hl'); [exact Ha'|exact Hb'|congruence|lia|].
  all: exists buf'; split; [exact Hr|lia].
Qed.

Lemma draw_line_loop_writes fuel buf a b buf' :
  0 <= a <= dx -> 0 <= b <= dy ->
  MainSim.draw_line_loop fuel buf w h x1 y1 dx dy sx sy
    (dx - dy - a * dy + b * dx) (x0 + sx * a) (y0 + sy * b) color = Some buf' ->
  length buf' = length buf /\
  (forall i, buf !! i = Some color -> buf' !! i = Some color) /\
  (forall i v, buf' !! i = Some v -> buf !! i <> Some v ->
     v = color /\ exists a' b', a <= a' <= dx /\ b <= b' <= dy /\
       in_screen w h (x0 + sx * a') (y0 + sy * b') = true /\
       i = pixel_index w (x0 + sx * a') (y0 + sy * b')) /\
  (in_screen w h (x0 + sx * a) (y0 + sy * b) = true ->
     buf' !! pixel_index w (x0 + sx * a) (y0 + sy * b) = Some color) /\
  (in_screen w h x1 y1 = true -> buf' !! pixel_index w x1 y1 = Some color).
Proof.
  revert buf a b. induction fuel as [|fuel IH]; intros buf a b Ha Hb Hrun;
    [discriminate|].
  rewrite draw_line_loop_unfold in Hrun.
  destruct (put_pixel _ _ _ _ _ _) as [buf1|] eqn:Hp; [|discriminate].
  apply put_pixel_inv in Hp as [Hb1 Hin].
  (* facts about the first write *)
  assert (Hl1 : length buf1 = length buf).
  { rewrite Hb1. destruct (in_screen w h (x0 + sx * a) (y0 + sy * b)); [apply length_insert|done]. }
  assert (Hm1 : forall i, buf !! i = Some color -> buf1 !! i = Some color).
  { intros i Hi. rewrite Hb1. destruct (in_screen w h (x0 + sx * a) (y0 + sy * b)) eqn:E; [|done].
    destruct (decide (i = pixel_index w (x0 + sx * a) (y0 + sy * b))) as [->|Hne].
    - apply list_lookup_insert_eq. by apply Hin.
    - by rewrite list_lookup_insert_ne by congruence. }
  assert (Hc1 : forall i v, buf1 !! i = Some v -> buf !! i <> Some v ->
     v = color /\ in_screen w h (x0 + sx * a) (y0 + sy * b) = true /\
       i = pixel_index w (x0 + sx * a) (y0 + sy * b)).
  { intros i v Hi Hne. rewrite Hb1 in Hi. destruct (in_screen w h (x0 + sx * a) (y0 + sy * b)) eqn:E; [|done].
    destruct (decide (i = pixel_index w (x0 + sx * a) (y0 + sy * b))) as [->|Hne'].
    - rewrite list_lookup_insert_eq in Hi by (by apply Hin). by injection Hi.
    - rewrite list_lookup_insert_ne in Hi by congruence. done. }
  assert (Hs1 : in_screen w h (x0 + sx * a) (y0 + sy * b) = true ->
                buf1 !! pixel_index w (x0 + sx * a) (y0 + sy * b) = Some color).
  { intros E. rewrite Hb1, E. apply list_lookup_insert_eq. by apply Hin. }
  destruct (Z.eqb_spec a dx) as [Ea|Hadx]; destruct (Z.eqb_spec b dy) as [Eb|Hbdy];
    simpl in Hrun.
  { subst a b. injection Hrun as <-. split; [done|]. split; [done|]. split; [|split; [done|]].
    - intros i v Hi Hne. destruct (Hc1 i v Hi Hne) as (-> & E & ->).
      split; [done|]. exists dx, dy. repeat split; try lia; done.
    - intros E. replace x1 with (x0 + sx * dx) by lia.
      replace y1 with (y0 + sy * dy) by lia. apply Hs1.
      replace (x0 + sx * dx) with x1 by lia. replace (y0 + sy * dy) with y1 by lia.
      done. }
  all: pose proof (bresenham_step dx dy a b _ Ha Hb eq_refl ltac:(lia)) as Hst;
       cbv zeta in Hst, Hrun.
  all: destruct (Z.ltb_spec (- dy) (2 * (dx - dy - a * dy + b * dx)));
       destruct (Z.ltb_spec (2 * (dx - dy - a * dy + b * dx)) dx).
  all: destruct Hst as (Ha' & Hb' & Hlt).
  all: destruct (IH buf1 _ _ Ha' Hb' Hrun) as (Hl & Hm & Hc & Hs & He).
  all: split; [congruence|]; split; [eauto|]; split; [|split; [eauto|exact He]].
  all: intros i v Hi Hne.
  all: destruct (decide (buf1 !! i = Some v)) as [Hi1|Hi1];
       [ destruct (Hc1 i v Hi1 Hne) as (-> & E & ->); split; [done|];
         exists a, b; repeat split; try lia; done
       | destruct (Hc i v Hi Hi1) as (-> & a' & b' & ? & ? & ? & ->); split; [done|];
         exists a', b'; split; [lia|]; split; [lia|]; done ].
Qed.

End Loop.

Lemma sign_abs x0 x1 :
  (if x0 <? x1 then 1 else -1) * Z.abs (x1 - x0) = x1 - x0 /\
  ((if x0 <? x1 then 1 else -1) = 1 \/ (if x0 <? x1 then 1 else -1) = -1).
Proof. destruct (Z.ltb_spec x0 x1); split; lia. Qed.

Lemma draw_line_as_loop fuel buffer w h x0 y0 x1 y1 color :
  let dx := Z.abs (x1 - x0) in
  let dy := Z.abs (y1 - y0) in
  let sx := if x0 <? x1 then 1 else -1 in
  let sy := if y0 <? y1 then 1 else -1 in
  draw_line fuel buffer w h x0 y0 x1 y1 color =
  draw_line_loop fuel buffer w h x1 y1 dx dy sx sy
    (dx - dy - 0 * dy + 0 * dx) (x0 + sx * 0) (y0 + sy * 0) color.
Proof.
  intros dx dy sx sy. unfold draw_line. f_equal; lia.
Qed.

(** [draw_line] with a buffer of [width * height] pixels and enough
    fuel (more than [|x1 - x0| + |y1 - y0|] iterations) terminates without
    an out-of-bounds panic, keeps the buffer's length, and colours both
    end points when they are on the screen. *)
Theorem draw_line_terminates_with_endpoints (fuel : nat) (buffer : list Z)
    (width height : nat) (x0 y0 x1 y1 color : Z)
    (Hlen : length buffer = (width * height)%nat)
    (Hfuel : (Z.to_nat (Z.abs (x1 - x0) + Z.abs (y1 - y0)) < fuel)%nat) :
  exists buf', draw_line fuel buffer width height x0 y0 x1 y1 color = Some buf' /\
    length buf' = length buffer /\
    (in_screen width height x0 y0 = true ->
       buf' !! pixel_index width x0 y0 = Some color) /\
    (in_screen width height x1 y1 = true ->
       buf' !! pixel_index width x1 y1 = Some color).
Proof.
  rewrite draw_line_as_loop.
  destruct (sign_abs x0 x1) as [Hsx Hsx1]. destruct (sign_abs y0 y1) as [Hsy Hsy1].
  destruct (draw_line_loop_some width height x0 y0 x1 y1 (Z.abs (x1 - x0)) (Z.abs (y1 - y0))
              (if x0 <? x1 then 1 else -1) (if y0 <? y1 then 1 else -1) color
              Hsx Hsx1 Hsy Hsy1 fuel buffer 0 0
              ltac:(lia) ltac:(lia) Hlen ltac:(lia)) as (buf' & Hr & Hl).
  exists buf'. split; [exact Hr|]. split; [exact Hl|].
  destruct (draw_line_loop_writes width height x0 y0 x1 y1 (Z.abs (x1 - x0)) (Z.abs (y1 - y0))
              (if x0 <? x1 then 1 else -1) (if y0 <? y1 then 1 else -1) color
              Hsx Hsx1 Hsy Hsy1 fuel buffer 0 0 buf'
              ltac:(lia) ltac:(lia) Hr) as (_ & _ & _ & Hs & He).
  split; [|exact He]. rewrite !Z.mul_0_r, !Z.add_0_r in Hs. exact Hs.
Qed.

(** Every pixel [draw_line] changes gets [color], is on the screen, and
    lies in the bounding box of the segment: nothing outside it is drawn. *)
Theorem draw_line_writes_color_on_segment (fuel : nat) (buffer buf' : list Z)
    (width height : nat) (x0 y0 x1 y1 color : Z)
    (Hrun : draw_line fuel buffer width height x0 y0 x1 y1 color = Some buf') :
  forall i v, buf' !! i = Some v -> buffer !! i <> Some v ->
    v = color /\ exists px py,
      in_screen width height px py = true /\ i = pixel_index width px py /\
      Z.min x0 x1 <= px <= Z.max x0 x1 /\ Z.min y0 y1 <= py <= Z.max y0 y1.
Proof.
  intros i v Hi Hne. rewrite draw_line_as_loop in Hrun.
  destruct (sign_abs x0 x1) as [Hsx Hsx1]. destruct (sign_abs y0 y1) as [Hsy Hsy1].
  destruct (draw_line_loop_writes width height x0 y0 x1 y1 (Z.abs (x1 - x0)) (Z.abs (y1 - y0))
              (if x0 <? x1 then 1 else -1) (if y0 <? y1 then 1 else -1) color
              Hsx Hsx1 Hsy Hsy1 fuel buffer 0 0 buf'
              ltac:(lia) ltac:(lia) Hrun) as (_ & _ & Hc & _).
  destruct (Hc i v Hi Hne) as (-> & a & b & Ha & Hb & Hs & ->).
  split; [done|]. exists (x0 + (if x0 <? x1 then 1 else -1) * a),
    (y0 + (if y0 <? y1 then 1 else -1) * b).
  split; [done|]. split; [done|].
  destruct (Z.ltb_spec x0 x1); destruct (Z.ltb_spec y0 y1); lia.
Qed.

Lemma draw_line_terminates_with_endpoints_witness :
  length (repeat 0 20) = (5 * 4)%nat /\
  (Z.to_nat (Z.abs (4 - 0) + Z.abs (2 - 0)) < 7)%nat /\
  exists buf', draw_line 7 (repeat 0 20) 5 4 0 0 4 2 9 = Some buf' /\
    length buf' = length (repeat 0 20) /\
    (in_screen 5 4 0 0 = true -> buf' !! pixel_index 5 0 0 = Some 9) /\
    (in_screen 5 4 4 2 = true -> buf' !! pixel_index 5 4 2 = Some 9).
Proof.
  split; [reflexivity|]. split; [vm_compute; lia|].
  apply (draw_line_terminates_with_endpoints 7 (repeat 0 20) 5 4 0 0 4 2 9);
    [reflexivity|vm_compute; lia].
Defined.

Lemma draw_line_writes_color_on_segment_witness :
  draw_line 20 (repeat 0 20) 5 4 4 3 (-2) 0 7 =
    Some [0; 0; 0; 0; 0; 7; 0; 0; 0; 0; 0; 7; 7; 0; 0; 0; 0; 0; 7; 7] /\
  forall i v, [0; 0; 0; 0; 0; 7; 0; 0; 0; 0; 0; 7; 7; 0; 0; 0; 0; 0; 7; 7] !! i = Some v ->
    repeat 0 20 !! i <> Some v ->
    v = 7 /\ exists px py,
      in_screen 5 4 px py = true /\ i = pixel_index 5 px py /\
      Z.min 4 (-2) <= px <= Z.max 4 (-2) /\ Z.min 3 0 <= py <= Z.max 3 0.
Proof.
  split; [vm_compute; reflexivity|].
  apply (draw_line_writes_color_on_segment 20 (repeat 0 20) _ 5 4 4 3 (-2) 0 7).
  vm_compute; reflexivity.
Defined.

End DrawLine.

(* ------------------------------------------------------------------ *)
(** ** physics.rs and main.rs: the flight updates *)

Section FlightUpdates.
Local Open Scope Q_scope.

Lemma Qclamp_bounds x lo hi : lo <= hi -> lo <= Qclamp x lo hi <= hi.
Proof.
  intros H. unfold Qclamp.
  destruct (Qlt_le_dec x lo); [lra|]. destruct (Qlt_le_dec hi x); lra.
Qed.

Lemma Qclamp_step t d e :
  0 <= t <= 1 -> - e <= d <= e -> - e <= Qclamp (t + d) 0 1 - t <= e.
Proof.
  intros Ht Hd. unfold Qclamp.
  destruct (Qlt_le_dec (t + d) 0); [lra|]. destruct (Qlt_le_dec 1 (t + d)); lra.
Qed.

(** physics.rs [Aircraft::update]: for finite fields and a finite [dt]
    (what the rationals model), after a step the throttle is in [0,1], the
    pitch is within +/- pi/2, and the input state is untouched. Both are
    written last by a [clamp], whose argument is never NaN here (a finite
    value plus a possibly infinite product). The altitude is not stated:
    with [f32] the forces can overflow to infinity and the altitude become
    NaN, which the [y < 0.0] guard does not catch. *)
Theorem Physics_update_bounds sqrt atan2 sin cos (dt : Q) (a : Physics.Aircraft) :
  let a' := Physics.update sqrt atan2 sin cos dt a in
  0 <= Physics.throttle_level a' <= 1 /\
  - Physics.FRAC_PI_2 <= Physics.theta a' <= Physics.FRAC_PI_2 /\
  Physics.input a' = Physics.input a.
Proof.
  cbv zeta. unfold Physics.update.
  pose proof (Qclamp_bounds
    (Physics.throttle_level a +
     (if Physics.throttle_up (Physics.input a) then Physics.THROTTLE_CHANGE_RATE
      else if Physics.throttle_down (Physics.input a)
           then - Physics.THROTTLE_CHANGE_RATE else 0) * dt) 0 1 ltac:(lra)) as Ht.
  pose proof (Qclamp_bounds
    (Physics.theta a +
     (if Physics.pitch_up (Physics.input a) then Physics.PITCH_RATE_MAX
      else if Physics.pitch_down (Physics.input a)
           then - Physics.PITCH_RATE_MAX else 0) * dt)
    (- Physics.FRAC_PI_2) Physics.FRAC_PI_2
    ltac:(unfold Physics.FRAC_PI_2; lra)) as Hp.
  destruct (Qlt_le_dec (1 # 1000) _); cbn [fst snd];
  match goal with |- context [Qlt_le_dec ?y' 0] => destruct (Qlt_le_dec y' 0) end;
  cbn [Physics.throttle_level Physics.y Physics.theta Physics.input];
  repeat split; try lra; try apply Ht; try apply Hp;
  unfold Physics.FRAC_PI_2; lra.
Qed.




Lemma MainSim_update_throttle sqrt atan2 sin cos dt pr a :
  MainSim.throttle_level (MainSim.update sqrt atan2 sin cos dt pr a) =
  MainSim.throttle_level a.
Proof.
  unfold MainSim.update. destruct (Qlt_le_dec (1 # 1000) _); cbn [fst snd];
  match goal with |- context [Qlt_le_dec ?y' 0] => destruct (Qlt_le_dec y' 0) end;
  reflexivity.
Qed.


(** main.rs, one iteration of the main loop: since [dt] is capped at 0.1 s,
    the throttle moves by at most 0.05 per frame, however long the frame
    took. *)
Theorem MainSim_frame_throttle_capped sqrt atan2 sin cos (elapsed : Q)
    (up down w s : bool) (a : MainSim.Aircraft) (He : 0 <= elapsed)
    (Ht : 0 <= MainSim.throttle_level a <= 1) :
  - (1 # 20) <=
    MainSim.throttle_level (MainSim.frame sqrt atan2 sin cos elapsed up down w s a)
    - MainSim.throttle_level a <= 1 # 20.
Proof.
  unfold MainSim.frame. cbv zeta. rewrite MainSim_update_throttle. simpl.
  apply Qclamp_step; [exact Ht|]. unfold Physics.THROTTLE_CHANGE_RATE.
  destruct (Qlt_le_dec elapsed (1 # 10));
  destruct w, s; nra.
Qed.

Lemma MainSim_frame_throttle_capped_witness :
  0 <= 5 /\ 0 <= MainSim.throttle_level MainSim.Aircraft_new <= 1 /\
  - (1 # 20) <=
    MainSim.throttle_level (MainSim.frame (fun q => q) (fun _ q => q)
      (fun q => q) (fun _ => 1) 5 false false true false MainSim.Aircraft_new)
    - MainSim.throttle_level MainSim.Aircraft_new <= 1 # 20.
Proof.
  split; [vm_compute; discriminate|]. split; [split; vm_compute; discriminate|].
  apply (MainSim_frame_throttle_capped (fun q => q) (fun _ q => q) (fun q => q)
           (fun _ => 1) 5 false false true false MainSim.Aircraft_new);
    [vm_compute; discriminate|split; vm_compute; discriminate].
Defined.

End FlightUpdates.

(* ------------------------------------------------------------------ *)
(** ** lib.rs: the invariant of reachable states *)

Lemma initial_locations_no_entry_MoL_all :
  map_Forall (fun _ l => "Ministry of Love" ∉ Loc.connections l) initial_locations.
Proof. apply (bool_decide_unpack _). vm_compute. reflexivity. Qed.

Lemma initial_locations_symmetric :
  map_Forall (fun a la => Forall (fun b => links_back a b = true) (Loc.connections la))
    initial_locations.
Proof. apply (bool_decide_unpack _). vm_compute. reflexivity. Qed.

Lemma char_ok_creation pid nm occ :
  char_ok pid (apply_occupation occ (Character_new pid nm occ)).
Proof.
  unfold apply_occupation.
  repeat match goal with |- context [String.eqb ?a ?b] => destruct (String.eqb a b) end;
  unfold char_ok; cbn; repeat split; try lia; try discriminate; vm_compute; discriminate.
Qed.

Lemma physics_update_fields c :
  exists p v, physics_update c = set_flight c p v (orientation c) (throttle c).
Proof.
  unfold physics_update. cbv zeta.
  destruct (Qlt_le_dec (vy (vadd (position c) _)) 0); eexists _, _; reflexivity.
Qed.

Lemma char_ok_physics id c : char_ok id c -> char_ok id (physics_update c).
Proof.
  destruct (physics_update_fields c) as (p & v & ->).
  unfold char_ok; cbn. intuition.
Qed.

Lemma dom_insert (p : gmap Uuid Character) (cl : gset Uuid) pid c :
  (forall id, is_Some (p !! id) -> id ∈ cl) -> pid ∈ cl ->
  forall id, is_Some (<[pid := c]> p !! id) -> id ∈ cl.
Proof.
  intros H Hpid id. destruct (decide (id = pid)) as [->|Hne]; [done|].
  rewrite lookup_insert_ne by congruence. apply H.
Qed.

Lemma game_tick_players srv :
  players (game_state (fst (game_tick srv))) =
  physics_update <$> (remove_players (clients srv)
     (end_condition_scan (clients srv) (map_to_list (players (game_state srv)))).1
     (players (game_state srv))).1.1.
Proof. by rewrite game_tick_unfold. Qed.

Lemma game_tick_clients srv : clients (fst (game_tick srv)) = clients srv.
Proof. by rewrite game_tick_unfold. Qed.

Lemma game_tick_world srv :
  world_state (game_state (fst (game_tick srv))) = world_state (game_state srv).
Proof. by rewrite game_tick_unfold. Qed.

Lemma server_ok_step fr srv i :
  server_ok srv -> locations_ok srv -> input_ok srv i = true ->
  server_ok (fst (server_step fr srv i)).
Proof.
  intros [Hd Hp] [Hw _] Hok. destruct i as [pid|pid m| |pid]; [simpl|simpl| |simpl].
  - split; simpl; [|done]. intros id Hid. apply Hd in Hid. set_solver.
  - simpl in Hok. apply bool_decide_eq_true in Hok.
    destruct (handle_client_message fr pid m _ _) as [gs' evs] eqn:Eh. simpl.
    destruct m; simpl in Eh; repeat case_match; simplify_eq; simpl;
      try (split; assumption).
    all: split; [apply dom_insert; assumption|apply map_Forall_insert_2; [|assumption]].
    + apply char_ok_creation.
    + match goal with Hc : @eq (option Character) _ (Some ?c) |- _ =>
        destruct (Hp pid c Hc) as (Ci & Ch & Cs & [Cl1 Cl2] & Cr & [Ct1 Ct2] & [Cth1 Cth2] & Cloc) end.
      unfold char_ok; simpl. split_and!; try assumption; try lia.
      intros ->. rewrite Hw in *.
      match goal with
      | Hcur : initial_locations !! _ = Some ?cur, Hin : _ ∈ Loc.connections ?cur |- _ =>
          exact (initial_locations_no_entry_MoL_all _ _ Hcur Hin)
      end.
    + match goal with Hc : @eq (option Character) _ (Some ?c) |- _ =>
        destruct (Hp pid c Hc) as (Ci & Ch & Cs & [Cl1 Cl2] & Cr & [Ct1 Ct2] & [Cth1 Cth2] & Cloc) end.
      unfold char_ok; simpl. split_and!; try assumption; try lia; apply Qclamp_bounds; lra.
    + match goal with Hc : @eq (option Character) _ (Some ?c) |- _ =>
        destruct (Hp pid c Hc) as (Ci & Ch & Cs & [Cl1 Cl2] & Cr & [Ct1 Ct2] & [Cth1 Cth2] & Cloc) end.
      unfold char_ok, u8_saturating_add; simpl. split_and!; try assumption; lia.
    + match goal with Hc : @eq (option Character) _ (Some ?c) |- _ =>
        destruct (Hp pid c Hc) as (Ci & Ch & Cs & [Cl1 Cl2] & Cr & [Ct1 Ct2] & [Cth1 Cth2] & Cloc) end.
      unfold char_ok, u8_saturating_add; simpl. split_and!; try assumption; lia.
  - change (server_ok (fst (game_tick srv))). split;
      rewrite game_tick_players; [rewrite game_tick_clients|].
    + intros id. rewrite lookup_fmap. intros Hid. apply Hd.
      destruct (_ !! id) as [c|] eqn:E; [|by destruct Hid].
      eexists. eapply lookup_weaken; [exact E|apply remove_players_subseteq].
    + apply map_Forall_fmap. intros id c Hc. unfold compose. apply char_ok_physics.
      eapply Hp, lookup_weaken; [exact Hc|apply remove_players_subseteq].
  - unfold handle_disconnect, server_ok. case_match; simpl; split.
    + intros id. destruct (decide (id = pid)) as [->|Hne].
      * rewrite lookup_delete_eq. by intros [].
      * rewrite lookup_delete_ne by congruence. intros Hid. apply Hd in Hid. set_solver.
    + by apply map_Forall_delete.
    + intros id Hid. destruct (decide (id = pid)) as [->|Hne].
      * destruct Hid. congruence.
      * apply Hd in Hid. set_solver.
    + exact Hp.
Qed.

Lemma reachable_server_ok fr srv : reachable fr srv -> server_ok srv.
Proof.
  induction 1 as [|srv i Hr IH Hok].
  - split; [|apply map_Forall_empty]. intros id [c Hc]. simpl in Hc.
    by rewrite lookup_empty in Hc.
  - apply server_ok_step; [exact IH| |exact Hok].
    by apply reachable_locations_ok with fr.
Qed.

(* ------------------------------------------------------------------ *)
(** ** lib.rs: message arms, disconnection, broadcast and tick *)

Lemma end_condition_scan_none cl l :
  Forall (fun ic => ends ic.2 = false) l -> end_condition_scan cl l = ([], []).
Proof.
  induction l as [|[j c] l IH]; intros H; [done|].
  apply Forall_cons in H as [Hc H]. rewrite end_condition_scan_cons.
  simpl in Hc. rewrite Hc, IH by done. done.
Qed.

Lemma count_sends_gen f k m (L : list Uuid) :
  (forall j, f (Send j m) = Nat.eqb j k) -> NoDup L ->
  count_by f ((fun j => Send j m) <$> L) = if decide (k ∈ L) then 1 else 0.
Proof.
  intros Hf. induction L as [|j L IH]; intros Hnd.
  { rewrite decide_False by set_solver. reflexivity. }
  rewrite fmap_cons. cbn [count_by]. rewrite Hf.
  apply NoDup_cons in Hnd as [Hj Hnd]. rewrite IH by done.
  destruct (Nat.eqb_spec j k) as [->|Hne].
  - rewrite decide_False by done. rewrite decide_True by set_solver. done.
  - repeat case_decide; set_solver.
Qed.

Lemma count_broadcast_gen f k cl ex m :
  (forall j, f (Send j m) = Nat.eqb j k) ->
  count_by f (broadcast_message cl ex m) =
    if decide (k ∈ cl /\ ex <> Some k) then 1 else 0.
Proof.
  intros Hf. unfold broadcast_message. rewrite (count_sends_gen f k m) by
    (done || apply NoDup_filter, NoDup_elements).
  apply decide_ext. rewrite list_elem_of_filter, elem_of_elements. tauto.
Qed.

Lemma count_state_update_gen f k cl gs :
  (forall j, f (Send j (GameStateUpdate gs)) = Nat.eqb j k) ->
  count_by f (broadcast_state_update cl gs) = if decide (k ∈ cl) then 1 else 0.
Proof.
  intros Hf. unfold broadcast_state_update.
  rewrite (count_sends_gen f k) by (done || apply NoDup_elements).
  apply decide_ext. apply elem_of_elements.
Qed.

Lemma count_send_gen f k cl m :
  (forall j, f (Send j m) = Nat.eqb j k) ->
  count_by f (send_message_to_client cl k m) = if decide (k ∈ cl) then 1 else 0.
Proof.
  intros Hf. rewrite count_by_send, Hf, Nat.eqb_refl. done.
Qed.

Lemma srv_one_player_reachable : reachable fly_rotate_keep srv_one_player.
Proof. apply run_reachable. constructor. Qed.



(** Reachable: health 100 and suspicion 0, so the tick removes no one and
    only runs the physics. *)
Theorem reachable_tick_only_physics fr srv (Hr : reachable fr srv) :
  let gs := game_state srv in
  let gs' := set_players gs (physics_update <$> players gs) in
  map_Forall (fun _ c => health c = 100%Z /\ suspicion c = 0%Z) (players gs) /\
  game_tick srv =
    (mkServer gs' (clients srv),
     if bool_decide (players gs = ∅) then [] else broadcast_state_update (clients srv) gs').
Proof.
  intros gs gs'. destruct (reachable_server_ok fr srv Hr) as [_ Hp]. split.
  - intros id c Hc. destruct (Hp id c Hc) as (_ & Hh & Hs & _). done.
  - rewrite game_tick_unfold. cbv zeta.
    rewrite end_condition_scan_none.
    + cbn. unfold gs', gs. by destruct (bool_decide _).
    + apply Forall_forall. intros [j c] Hin. apply elem_of_map_to_list in Hin.
      destruct (Hp j c Hin) as (_ & Hh & Hs & _). unfold ends. simpl.
      rewrite Hh, Hs. reflexivity.
Qed.

Lemma reachable_tick_only_physics_witness :
  reachable fly_rotate_keep srv_one_player /\
  clients (fst (game_tick srv_one_player)) = clients srv_one_player.
Proof.
  split; [apply srv_one_player_reachable|].
  destruct (reachable_tick_only_physics fly_rotate_keep srv_one_player
              srv_one_player_reachable) as [_ ->].
  reflexivity.
Defined.

(** Reachable: the throttle is in [0,1]. Only [Character::new] (throttle
    0) and the [FlyInput] arm, a [clamp(0.0, 1.0)], write it; the tick keeps
    it. (With [f32] the clamp also maps an infinite request to 0 or 1, and
    JSON has no NaN; the altitude, in contrast, can become NaN in [f32] and is
    not stated.) *)
Theorem reachable_flight_bounds fr srv id c
    (Hr : reachable fr srv) (Hc : players (game_state srv) !! id = Some c) :
  (0 <= throttle c <= 1)%Q.
Proof.
  destruct (reachable_server_ok fr srv Hr) as [_ Hp].
  destruct (Hp id c Hc) as (_ & _ & _ & _ & _ & _ & Ht & _). done.
Qed.

Lemma reachable_flight_bounds_witness :
  (0 <= throttle winston_rdw <= 1)%Q.
Proof.
  apply (reachable_flight_bounds fly_rotate_keep srv_one_player 1 winston_rdw).
  - apply run_reachable. constructor.
  - reflexivity.
Defined.

(** Reachable: no character is at the "Ministry of Love", which no location
    lists as a connection. *)
Theorem reachable_never_ministry_of_love fr srv id c
    (Hr : reachable fr srv) (Hc : players (game_state srv) !! id = Some c) :
  location c <> "Ministry of Love" /\
  map_Forall (fun _ l => "Ministry of Love" ∉ Loc.connections l)
    (locations (world_state (game_state srv))).
Proof.
  destruct (reachable_server_ok fr srv Hr) as [_ Hp].
  destruct (reachable_locations_ok fr srv Hr) as [Hw _]. split.
  - apply (Hp id c Hc).
  - rewrite Hw. apply initial_locations_no_entry_MoL_all.
Qed.

Lemma reachable_never_ministry_of_love_witness :
  location winston_rdw <> "Ministry of Love".
Proof.
  apply (reachable_never_ministry_of_love fly_rotate_keep srv_one_player 1 winston_rdw).
  - apply run_reachable. constructor.
  - reflexivity.
Defined.

(** Reachable: loyalty in [0,100], rebellion score 0, thoughtcrime in [0,255]. *)
Theorem reachable_stat_bounds fr srv id c
    (Hr : reachable fr srv) (Hc : players (game_state srv) !! id = Some c) :
  (0 <= loyalty c <= 100)%Z /\ rebellion_score c = 0%Z /\
  (0 <= thoughtcrime c <= 255)%Z.
Proof.
  destruct (reachable_server_ok fr srv Hr) as [_ Hp].
  destruct (Hp id c Hc) as (_ & _ & _ & Hl & Hr' & Ht & _). done.
Qed.

Lemma reachable_stat_bounds_witness :
  (0 <= loyalty winston_rdw <= 100)%Z /\ rebellion_score winston_rdw = 0%Z /\
  (0 <= thoughtcrime winston_rdw <= 255)%Z.
Proof.
  apply (reachable_stat_bounds fly_rotate_keep srv_one_player 1 winston_rdw).
  - apply run_reachable. constructor.
  - reflexivity.
Defined.

Lemma links_back_spec a b :
  links_back a b = true ->
  exists lb, initial_locations !! b = Some lb /\ a ∈ Loc.connections lb.
Proof.
  unfold links_back. destruct (initial_locations !! b) as [lb|]; [|done].
  intros H. apply bool_decide_eq_true in H. eauto.
Qed.

Ltac move_back_fail :=
  match goal with
  | Hc : ?l = Some ?c, Hmv : ?l' = Some (set_location ?c ?t), Hne : location ?c <> ?t |- _ =>
      let Hx := fresh in
      assert (Hx : Some c = Some (set_location c t))
        by (etransitivity; [symmetry; exact Hc|exact Hmv]);
      injection Hx as Hx; apply (f_equal location) in Hx; simpl in Hx;
      congruence
  end.

(** Reachable: a move that changes the location can be undone by moving
    back, since every connection of the table links back. *)
Theorem reachable_move_reversible fr srv pid c t
    (Hr : reachable fr srv) (Hc : players (game_state srv) !! pid = Some c)
    (Hne : location c <> t)
    (Hmv : players (fst (handle_client_message fr pid (MoveRequest t)
                          (game_state srv) (clients srv))) !! pid =
           Some (set_location c t)) :
  let gs1 := fst (handle_client_message fr pid (MoveRequest t)
                    (game_state srv) (clients srv)) in
  players (fst (handle_client_message fr pid (MoveRequest (location c))
                 gs1 (clients srv))) !! pid =
    Some (set_location (set_location c t) (location c)).
Proof.
  intros gs1. destruct (reachable_locations_ok fr srv Hr) as [Hw _].
  unfold gs1 in *. simpl in Hmv |- *. rewrite Hc in Hmv |- *.
  destruct (locations (world_state (game_state srv)) !! location c)
    as [cur|] eqn:Hcur;
    [|simpl in Hmv; move_back_fail].
  destruct (decide (t ∈ Loc.connections cur)) as [Hin|Hin];
    [|simpl in Hmv; move_back_fail].
  destruct (locations (world_state (game_state srv)) !! t) as [lt|] eqn:Hlt;
    [|simpl in Hmv; move_back_fail].
  simpl. rewrite lookup_insert_eq. simpl. rewrite Hlt.
  rewrite Hw in Hcur, Hlt.
  pose proof (initial_locations_symmetric _ _ Hcur) as Hsym.
  rewrite Forall_forall in Hsym. specialize (Hsym t Hin).
  destruct (links_back_spec _ _ Hsym) as (lb & Hlb & Hback).
  rewrite Hlt in Hlb. injection Hlb as <-.
  rewrite decide_True by exact Hback. rewrite <- Hw in Hcur. rewrite Hcur.
  simpl. apply lookup_insert_eq.
Qed.

Lemma reachable_move_reversible_witness :
  players (fst (handle_client_message fly_rotate_keep 1
    (MoveRequest (location winston_rdw))
    (fst (handle_client_message fly_rotate_keep 1 (MoveRequest "Ministry of Truth")
            (game_state srv_one_player) (clients srv_one_player)))
    (clients srv_one_player))) !! 1 =
  Some (set_location (set_location winston_rdw "Ministry of Truth")
          (location winston_rdw)).
Proof.
  apply (reachable_move_reversible fly_rotate_keep srv_one_player 1 winston_rdw
           "Ministry of Truth").
  - apply run_reachable. constructor.
  - reflexivity.
  - vm_compute. discriminate.
  - vm_compute. reflexivity.
Defined.

(** Each client receives one copy of a broadcast, unless excluded; one of a
    state update; one of a direct message if it has a channel. *)
Theorem broadcast_delivery cl ex m gs k :
  count_by (is_to k) (broadcast_message cl ex m) =
    (if decide (k ∈ cl /\ ex <> Some k) then 1 else 0) /\
  count_by (is_to k) (broadcast_state_update cl gs) =
    (if decide (k ∈ cl) then 1 else 0) /\
  count_by (is_to k) (send_message_to_client cl k m) =
    (if decide (k ∈ cl) then 1 else 0).
Proof.
  split_and!.
  - by apply count_broadcast_gen.
  - by apply count_state_update_gen.
  - by apply count_send_gen.
Qed.

(** [handle_disconnect]: the id loses its channel and its character; the
    other connected clients are told once each that it left, and only if it
    had a character. *)
Theorem handle_disconnect_effects pid srv :
  let '(srv', evs) := handle_disconnect pid srv in
  clients srv' = clients srv ∖ {[pid]} /\
  players (game_state srv') = delete pid (players (game_state srv)) /\
  world_state (game_state srv') = world_state (game_state srv) /\
  (forall k, count_by (is_to k) evs =
     if decide (is_Some (players (game_state srv) !! pid) /\
                k ∈ clients srv /\ k <> pid) then 1 else 0) /\
  (forall e, e ∈ evs -> exists k, e = Send k (PlayerLeft pid)).
Proof.
  unfold handle_disconnect.
  destruct (players (game_state srv) !! pid) as [c|] eqn:Hp; simpl; split_and!.
  - done.
  - done.
  - done.
  - intros k. rewrite (count_broadcast_gen _ k) by done. apply decide_ext.
    split.
    + intros [Hk Hne]. split; [by eexists|]. set_solver.
    + intros (_ & Hk & Hne). split; [set_solver|]. intros [=]. congruence.
  - intros e He. apply elem_of_broadcast_message in He as (j & -> & _). eauto.
  - done.
  - by rewrite delete_id.
  - done.
  - done.
  - set_solver.
Qed.

(** The [FlyInput] arm: no message is sent; the character keeps its
    position and velocity; its throttle stays in [0,1] and moves by at most
    [|throttle_change| / 15]. *)
Theorem fly_input_arm fr pid pitch roll yaw tc gs cl c
    (Hc : players gs !! pid = Some c) :
  let '(gs', evs) := handle_client_message fr pid (FlyInput pitch roll yaw tc) gs cl in
  evs = [] /\ world_state gs' = world_state gs /\
  exists o t, players gs' = <[pid := set_flight c (position c) (velocity c) o t]> (players gs) /\
    (0 <= t <= 1)%Q /\
    ((0 <= throttle c <= 1)%Q ->
     (- (Qabs tc * (1 # 15)) <= t - throttle c <= Qabs tc * (1 # 15))%Q).
Proof.
  simpl. rewrite Hc. split_and!; [done|done|].
  eexists _, _. split; [reflexivity|]. split.
  - apply Qclamp_bounds. lra.
  - intros Ht. apply Qclamp_step; [exact Ht|].
    pose proof (Qle_Qabs tc). pose proof (Qle_Qabs (- tc)). rewrite Qabs_opp in *.
    unfold FRAME_TIME. split; lra.
Qed.

Lemma fly_input_arm_witness :
  players (game_state srv_one_player) !! 1 = Some winston_rdw /\
  (let '(gs', evs) := handle_client_message fly_rotate_keep 1 (FlyInput 0 0 0 1)
                        (game_state srv_one_player) (clients srv_one_player) in
   evs = []).
Proof.
  split; [reflexivity|].
  pose proof (fly_input_arm fly_rotate_keep 1 0 0 0 1 (game_state srv_one_player)
                (clients srv_one_player) winston_rdw ltac:(reflexivity)) as H.
  destruct (handle_client_message _ _ _ _ _) as [gs' evs].
  apply H.
Defined.





(** The [InteractRequest], [SearchRequest] and [WorkRequest] arms change no
    state and send at most one narrative, to the sender only. *)
Theorem narrative_commands_no_state_change fr pid m gs cl
    (Hm : narrative_only_command m) :
  let '(gs', evs) := handle_client_message fr pid m gs cl in
  gs' = gs /\
  (forall e, e ∈ evs -> exists t, e = Send pid (NarrativeUpdate t)) /\
  length evs = (if decide (pid ∈ cl) then 1 else 0).
Proof.
  destruct m; try contradiction; simpl; unfold send_message_to_client;
    (case_decide; split_and!; [done| |done|done| |done]);
    try (intros e He; apply list_elem_of_singleton in He; eauto);
    set_solver.
Qed.

Lemma narrative_commands_no_state_change_witness :
  let '(gs', evs) := handle_client_message fly_rotate_keep 1 SearchRequest
                       (game_state srv_one_player) (clients srv_one_player) in
  gs' = game_state srv_one_player.
Proof.
  pose proof (narrative_commands_no_state_change fly_rotate_keep 1 SearchRequest
                (game_state srv_one_player) (clients srv_one_player) I) as H.
  destruct (handle_client_message _ _ _ _ _) as [gs' evs].
  apply H.
Defined.

(** A client message changes only the sender's entry of the player map,
    never the world, and sends only to ids that have a channel. *)
Theorem handle_client_message_frame fr pid m gs cl j (Hne : j <> pid) :
  let '(gs', evs) := handle_client_message fr pid m gs cl in
  players gs' !! j = players gs !! j /\ world_state gs' = world_state gs /\
  (forall e, e ∈ evs -> exists k msg, e = Send k msg /\ k ∈ cl).
Proof.
  assert (Hsend : forall k msg e, e ∈ send_message_to_client cl k msg ->
            exists k' msg', e = Send k' msg' /\ k' ∈ cl).
  { intros k msg e. unfold send_message_to_client. case_decide; [|set_solver].
    intros He. apply list_elem_of_singleton in He. eauto. }
  assert (Hbc : forall ex msg e, e ∈ broadcast_message cl ex msg ->
            exists k' msg', e = Send k' msg' /\ k' ∈ cl).
  { intros ex msg e He. apply elem_of_broadcast_message in He as (k & -> & Hk & _).
    eauto. }
  assert (Hsu : forall g e, e ∈ broadcast_state_update cl g ->
            exists k' msg', e = Send k' msg' /\ k' ∈ cl).
  { intros g e He. unfold broadcast_state_update in He.
    apply list_elem_of_fmap in He as (k & -> & Hk). apply elem_of_elements in Hk.
    eauto. }
  destruct (handle_client_message fr pid m gs cl) as [gs' evs] eqn:Eh.
  destruct m; simpl in Eh; repeat case_match; simplify_eq; simpl;
    (split; [rewrite ?lookup_insert_ne by congruence; done|]);
    (split; [done|]);
    intros ev Hev; rewrite ?elem_of_app in Hev;
    repeat match goal with
    | H : _ \/ _ |- _ => destruct H as [Hev|Hev]
    end;
    eauto; set_solver.
Qed.

Lemma handle_client_message_frame_witness :
  let '(gs', evs) := handle_client_message fly_rotate_keep 1 RestRequest
                       (game_state srv_one_player) (clients srv_one_player) in
  players gs' !! 2 = None.
Proof.
  pose proof (handle_client_message_frame fly_rotate_keep 1 RestRequest
                (game_state srv_one_player) (clients srv_one_player) 2
                ltac:(lia)) as H.
  destruct (handle_client_message _ _ _ _ _) as [gs' evs].
  destruct H as [H _]. etransitivity; [exact H|reflexivity].
Defined.

(** After the tick removes an ended character, its id keeps its channel and
    has no character, so a creation request handled next creates a fresh
    one. *)
Theorem tick_removed_can_recreate fr srv j c nm occ
    (Hc : players (game_state srv) !! j = Some c) (Hend : ends c = true)
    (Hcl : j ∈ clients srv) :
  let srv' := fst (game_tick srv) in
  j ∈ clients srv' /\ players (game_state srv') !! j = None /\
  players (fst (handle_client_message fr j (RequestCharacterCreation nm occ)
                  (game_state srv') (clients srv'))) !! j =
    Some (apply_occupation occ (Character_new j nm occ)).
Proof.
  intros srv'.
  assert (Hn : players (game_state srv') !! j = None).
  { unfold srv'. rewrite game_tick_lookup, Hc, Hend. done. }
  split_and!.
  - unfold srv'. by rewrite game_tick_clients.
  - exact Hn.
  - simpl. rewrite Hn. simpl. apply lookup_insert_eq.
Qed.

Lemma tick_removed_can_recreate_witness :
  players (fst (handle_client_message fly_rotate_keep 1
    (RequestCharacterCreation "Julia" "Fiction Department Writer")
    (game_state (fst (game_tick srv_dead_player)))
    (clients (fst (game_tick srv_dead_player))))) !! 1 =
  Some (apply_occupation "Fiction Department Writer"
          (Character_new 1 "Julia" "Fiction Department Writer")).
Proof.
  apply (tick_removed_can_recreate fly_rotate_keep srv_dead_player 1
           (set_health (Character_new 1 "Winston" "Records Department Worker") 0)).
  - reflexivity.
  - reflexivity.
  - change (1 ∈ ({[1; 2]} : gset Uuid)). set_solver.
Defined.
